(** * Recovering text from pages of single-character QR symbols

    A model of [main.py]: the per-page symbol collection, the line
    clusterer, the paragraph reconstruction of [decode_qr_from_pdf], and the
    control flow of [main].

    Python values are modelled as the code has them: a [str] is a sequence
    of Unicode code points, a [float] is an IEEE 754 binary64 number
    (Rocq's primitive floats), a list is a list, and an exception is the
    [Raise] case of a result type. *)

From Stdlib Require Import List NArith ZArith Bool Ascii Floats Lia.
From Stdlib Require Import Sorted Permutation.
From Stdlib Require String.
Import String.StringSyntax.
Import ListNotations.

Set Warnings "-inexact-float".

(* ================================================================== *)
(** ** Python strings *)

Module PyStr.

(** A Python [str]: its code points, in order. *)
Definition char := N.
Definition pystr := list char.

(** A literal, written with Rocq's own strings. *)
Definition str (s : String.string) : pystr :=
  map N_of_ascii (String.list_ascii_of_string s).
Arguments str s%_string_scope.

Fixpoint eqb (a b : pystr) : bool :=
  match a, b with
  | [], [] => true
  | x :: a', y :: b' => N.eqb x y && eqb a' b'
  | _, _ => false
  end.

(** Truthiness of a string or of a list: non-empty. *)
Definition truthy {A} (l : list A) : bool :=
  match l with [] => false | _ :: _ => true end.

(** [str.isspace] on one code point: the ASCII table of CPython
    (TAB..CR, FS..US, space) and the Unicode white-space code points. *)
Definition isspace (c : char) : bool :=
  (((9 <=? c) && (c <=? 13)) || ((28 <=? c) && (c <=? 32))
   || (c =? 133) || (c =? 160) || (c =? 5760)
   || ((8192 <=? c) && (c <=? 8202))
   || (c =? 8232) || (c =? 8233) || (c =? 8239) || (c =? 8287)
   || (c =? 12288))%N.

Fixpoint lstrip_by (p : char -> bool) (s : pystr) : pystr :=
  match s with
  | [] => []
  | c :: t => if p c then lstrip_by p t else s
  end.

Definition rstrip_by (p : char -> bool) (s : pystr) : pystr :=
  rev (lstrip_by p (rev s)).

Definition strip_by (p : char -> bool) (s : pystr) : pystr :=
  rstrip_by p (lstrip_by p s).

(** [s.strip()] *)
Definition strip : pystr -> pystr := strip_by isspace.

(** [s.strip(chars)] *)
Definition strip_chars (chars : pystr) : pystr -> pystr :=
  strip_by (fun c => existsb (N.eqb c) chars).

(** [sep.join(parts)] *)
Fixpoint join (sep : pystr) (parts : list pystr) : pystr :=
  match parts with
  | [] => []
  | p :: rest =>
      match rest with
      | [] => p
      | _ :: _ => p ++ sep ++ join sep rest
      end
  end.

Definition newline : pystr := [10%N].

(** A string is [clean] when it does not start with a stripped character. *)
Definition clean (p : char -> bool) (s : pystr) : Prop :=
  match s with [] => True | c :: _ => p c = false end.

End PyStr.

(* ================================================================== *)
(** ** Exceptions *)

Module PyExc.

(** The exceptions that the modelled code can see. *)
Inductive exn :=
| StatisticsError          (* statistics.median on empty data *)
| RuntimeError             (* raised by decode_qr_from_pdf: an import failed *)
| OpenError                (* fitz.open raised *)
| RenderError.             (* rendering a page raised *)

(** A call returns a value or raises. *)
Inductive result (A : Type) :=
| Ok (a : A)
| Raise (e : exn).
Arguments Ok {A} a.
Arguments Raise {A} e.

(** Sequencing: an exception that nothing catches goes through. *)
Definition bind {A B} (r : result A) (k : A -> result B) : result B :=
  match r with
  | Ok a => k a
  | Raise e => Raise e
  end.

End PyExc.

(* ================================================================== *)
(** ** Python floats, [max], [sorted] and [statistics.median] *)

Module PyFloat.

Import PyExc.
Local Open Scope float_scope.

(** [max(a, b)] on two arguments: the first is kept unless the second
    compares greater. *)
Definition pymax (a b : float) : float := if a <? b then b else a.

(** [list.sort(key=...)] and [sorted]: a stable sort that only asks [<]
    of the keys.  It is written as the insertion sort that stability and
    [<] determine: on keys that [<] orders totally (floats none of which
    is NaN) every stable sort gives this list.  What is proved below of the
    order of a sorted list assumes such keys. *)
Section Sort.
Context {A K : Type} (lt : K -> K -> bool) (key : A -> K).

Fixpoint insert (x : A) (l : list A) : list A :=
  match l with
  | [] => [x]
  | y :: l' => if lt (key y) (key x) then y :: insert x l' else x :: y :: l'
  end.

Fixpoint py_sort (l : list A) : list A :=
  match l with
  | [] => []
  | x :: l' => insert x (py_sort l')
  end.

End Sort.

(** [statistics.median(data)]:
<<
    data = sorted(data); n = len(data)
    if n == 0: raise StatisticsError
    if n % 2 == 1: return data[n // 2]
    i = n // 2;    return (data[i - 1] + data[i]) / 2
>>
    The indices are in range, so the default of [nth] is never read. *)
Definition median (data : list float) : result float :=
  let data := py_sort PrimFloat.ltb (fun x => x) data in
  let n := length data in
  if Nat.eqb n 0 then Raise StatisticsError
  else if Nat.eqb (Nat.modulo n 2) 1 then Ok (nth (Nat.div n 2) data 0)
  else
    let i := Nat.div n 2 in
    Ok ((nth (i - 1) data 0 + nth i data 0) / 2).

(** Order and well-formedness of elements seen through a float key. *)
Definition key_le {A} (key : A -> float) (a b : A) : Prop :=
  (key a <=? key b) = true.

Definition key_ok {A} (key : A -> float) (a : A) : Prop :=
  is_nan (key a) = false.

End PyFloat.

(* ================================================================== *)
(** ** The program *)

Module Qr.

Import PyStr PyExc PyFloat.
Local Open Scope float_scope.

(** *** Data *)

(** One decoded symbol, the tuple [(cy, cx, text, size)] of the source. *)
Record item := Item { cy : float; cx : float; text : pystr; size : float }.

Definition line := list item.

(** The corner array [pts] of one symbol, seen through the three numpy
    expressions of the [try] block (lines 101-106): they give the
    centroid and the height, or one of them raises.  numpy computes them in
    the precision of the array; the three results are taken as they come
    out of [float(...)]. *)
Inductive corners :=
| Corners (cy cx size : float)
| BadCorners.

(** What [detector.detectAndDecodeMulti(img_bgr)] does: it raises, or
    returns a 4-tuple [(retval, infos, pts, _)], a 3-tuple
    [(infos, pts, _)], or something else.  [None] is Python's [None]. *)
Inductive detect_result :=
| DetectRaise
| Tuple4 (retval : bool) (infos : option (list pystr))
         (pts : option (list corners))
| Tuple3 (infos : option (list pystr)) (pts : option (list corners))
| OtherResult.

(** A page of the open document: rendering it (lines 66-73) raises, or
    gives an image on which the detector answers.  The magnification
    [zoom] reaches nothing but the renderer, so a page is given as it
    renders at the chosen [zoom]. *)
Inductive page :=
| RenderRaise
| Rendered (r : detect_result).

(** The file given to [decode_qr_from_pdf]: whether the three imports
    succeed, and the pages [fitz.open] gives ([None]: it raises). *)
Record pdf := Pdf { imports_ok : bool; doc : option (list page) }.

(** *** Symbol collection (lines 75-115) *)

(** [decoded_info] and [points] after the [try] of lines 78-94. *)
Definition detect (r : detect_result) : list pystr * option (list corners) :=
  match r with
  | Tuple4 retval (Some infos) (Some pts) =>
      if retval then (infos, Some pts) else ([], None)
  | Tuple3 (Some infos) (Some pts) => (infos, Some pts)
  | _ => ([], None)
  end.

(** The body of the [for info, pts in zip(...)] loop.  On a string,
    [info or] the empty string is [info] itself. *)
Definition collect_step (items : list item) (p : pystr * corners)
  : list item :=
  let '(info, pts) := p in
  let text := info in
  match pts with
  | BadCorners => items
  | Corners cy cx size =>
      if truthy text then items ++ [Item cy cx text size] else items
  end.

Definition collect (decoded_info : list pystr) (points : option (list corners))
  : list item :=
  match points with
  | Some pts =>
      if Nat.eqb (length decoded_info) (length pts)
      then fold_left collect_step (combine decoded_info pts) []
      else []
  | None => []
  end.

(** *** Line clustering (lines 113-147) *)

(** [<] on the sort key [(t[0], t[1])]: tuples compare at the first
    position where they are not equal. *)
Definition lt_yx (a b : float * float) : bool :=
  if fst a =? fst b
  then (if snd a =? snd b then false else snd a <? snd b)
  else fst a <? fst b.

Definition key_yx (t : item) : float * float := (cy t, cx t).

(** [current_line.sort(key=lambda t: t[1])] *)
Definition sort_by_x : line -> line := py_sort PrimFloat.ltb cx.

Definition median_h (items : list item) : result float :=
  if truthy items then median (map size items) else Ok 20.

Definition y_threshold (items : list item) : result float :=
  bind (median_h items) (fun m => Ok (pymax 5 (0.6 * m))).

(** The loop variables [lines], [current_line], [current_y]. *)
Record cluster := Cluster {
  lines : list line;
  current_line : line;
  current_y : option float
}.

Definition cluster_init : cluster := Cluster [] [] None.

Definition cluster_step (thr : float) (st : cluster) (it : item) : cluster :=
  let y := cy it in
  match current_y st with
  | None => Cluster (lines st) [it] (Some y)
  | Some c =>
      if abs (y - c) <=? thr
      then Cluster (lines st) (current_line st ++ [it])
                   (Some ((c * 0.7) + (y * 0.3)))
      else Cluster (lines st ++ [sort_by_x (current_line st)]) [it] (Some y)
  end.

Definition cluster_finish (st : cluster) : list line :=
  if truthy (current_line st)
  then lines st ++ [sort_by_x (current_line st)]
  else lines st.

(** The lines that one page appends to [lines_all_pages]. *)
Definition page_lines (items : list item) : result (list line) :=
  if negb (truthy items) then Ok []
  else
    bind (y_threshold items) (fun thr =>
    let items := py_sort lt_yx key_yx items in
    Ok (cluster_finish (fold_left (cluster_step thr) items cluster_init))).

(** *** Paragraph reconstruction (lines 149-174) *)

(** The delimiter: the string ["+"], and its one character. *)
Definition plus : pystr := str "+".
Definition plus_char : char := N_of_ascii "+".

(** The loop variables [(paragraphs, current)]. *)
Definition acc := (list pystr * list pystr)%type.

Definition feed (st : acc) (ch : pystr) : acc :=
  let '(paragraphs, current) := st in
  if eqb ch plus then
    let paragraph := strip (join [] current) in
    (if truthy paragraph then paragraphs ++ [paragraph] else paragraphs, [])
  else (paragraphs, current ++ [ch]).

Definition feed_line (st : acc) (l : line) : acc :=
  let line_chars := map text l in
  fold_left feed line_chars st.

Definition feed_page (st : acc) (page_lines : list line) : acc :=
  if negb (truthy page_lines) then st
  else fold_left feed_line page_lines st.

Definition flush (st : acc) : list pystr :=
  let '(paragraphs, current) := st in
  let tail := strip (join [] current) in
  if truthy tail then paragraphs ++ [tail] else paragraphs.

(** [paragraphs] when line 174 is reached. *)
Definition paragraphs_of (lines_all_pages : list (list line)) : list pystr :=
  flush (fold_left feed_page lines_all_pages ([], [])).

Definition compose (lines_all_pages : list (list line)) : pystr :=
  strip_chars newline (join newline (paragraphs_of lines_all_pages)).

(** The payloads in reading order: pages, then lines, then symbols. *)
Definition stream (lines_all_pages : list (list line)) : list pystr :=
  concat (map (fun page_lines => concat (map (map text) page_lines))
              lines_all_pages).

(** *** [decode_qr_from_pdf] *)

Definition process_page (p : page) : result (list line) :=
  match p with
  | RenderRaise => Raise RenderError
  | Rendered r =>
      let '(decoded_info, points) := detect r in
      page_lines (collect decoded_info points)
  end.

(** The [for page in doc] loop, from the value [lines_all_pages] has
    when [pages] are still to come. *)
Fixpoint process_pages (pages : list page)
    (lines_all_pages : list (list line)) : result (list (list line)) :=
  match pages with
  | [] => Ok lines_all_pages
  | p :: rest =>
      bind (process_page p) (fun ls =>
      process_pages rest (lines_all_pages ++ [ls]))
  end.

Definition decode_qr_from_pdf (f : pdf) : result pystr :=
  if negb (imports_ok f) then Raise RuntimeError
  else match doc f with
       | None => Raise OpenError
       | Some pages =>
           bind (process_pages pages []) (fun lines_all_pages =>
           Ok (compose lines_all_pages))
       end.

(** *** [main] *)

(** Lines 195-218, once the arguments are parsed.  What a run can see:
    whether the input path exists, the answer of [extract_text_from_pdf],
    the file as [decode_qr_from_pdf] sees it, and the parts of the stamped
    output name. *)
Record world := World {
  in_exists : bool;
  direct_text : pystr;
  file : pdf;
  out_stem : pystr;
  out_suffix : pystr;
  timestamp : pystr
}.

Inductive event :=
| Stderr (e : option exn)          (* a message on standard error *)
| WriteText (name text : pystr)    (* stamped_out.write_text(text) *)
| Stdout (name : pystr).

(** A run either goes on with a value or has called [sys.exit]. *)
Inductive outcome (A : Type) :=
| Next (a : A)
| Exit (status : Z).
Arguments Next {A} a.
Arguments Exit {A} status.

Definition prog (A : Type) := list event -> list event * outcome A.

Definition ret {A} (a : A) : prog A := fun log => (log, Next a).

Definition seq {A B} (m : prog A) (k : A -> prog B) : prog B :=
  fun log =>
    match m log with
    | (log', Next a) => k a log'
    | (log', Exit s) => (log', Exit s)
    end.

Definition emit (ev : event) : prog unit := fun log => (log ++ [ev], Next tt).

Definition sys_exit {A} (status : Z) : prog A := fun log => (log, Exit status).

Notation "x <- m ;; k" := (seq m (fun x => k))
  (at level 61, m at next level, right associativity).
Notation "m ;;; k" := (seq m (fun _ => k))
  (at level 61, right associativity).

Definition stamped_name (w : world) : pystr :=
  let suffix := if truthy (out_suffix w) then out_suffix w else str ".txt" in
  out_stem w ++ str "_" ++ timestamp w ++ suffix.

Definition main (w : world) : prog unit :=
  (if negb (in_exists w)
   then emit (Stderr None) ;;; sys_exit 1
   else ret tt) ;;;
  let text := direct_text w in
  text <- (if negb (truthy text)
           then match decode_qr_from_pdf (file w) with
                | Ok t => ret t
                | Raise e => emit (Stderr (Some e)) ;;; sys_exit 2
                end
           else ret text) ;;
  emit (WriteText (stamped_name w) text) ;;;
  emit (Stdout (stamped_name w)).

(** The events of a whole run and the exit status of the process. *)
Definition run (w : world) : list event * Z :=
  match main w [] with
  | (log, Next _) => (log, 0%Z)
  | (log, Exit s) => (log, s)
  end.

Definition writes (log : list event) : list (pystr * pystr) :=
  flat_map (fun ev => match ev with
                      | WriteText n t => [(n, t)]
                      | _ => []
                      end) log.

(** *** Pages to try the definitions on *)

(** One single-character payload per character. *)
Definition letters (s : String.string) : list pystr :=
  map (fun a => [N_of_ascii a]) (String.list_ascii_of_string s).
Arguments letters s%_string_scope.

(** Symbols of height 20 on the row y = 10, 30 apart from [x] on. *)
Fixpoint row_from (x : float) (payloads : list pystr) : line :=
  match payloads with
  | [] => []
  | p :: rest => Item 10 x p 20 :: row_from (x + 30) rest
  end.

Definition row : list pystr -> line := row_from 15.

(** The corner arrays of [n] such symbols, [dx] apart from [x] on. *)
Fixpoint spaced (x dx : float) (n : nat) : list corners :=
  match n with
  | O => []
  | S n' => Corners 10 x 20 :: spaced (x + dx) dx n'
  end.

(** *** Notions used to state the properties *)

(** The items one pair of the [zip] adds. *)
Definition symbol_of (p : pystr * corners) : list item := collect_step [] p.

(** What a paragraph is, given the payloads [s] read so far: the trimmed
    concatenation of a run of consecutive payloads, none of them the
    delimiter, and not empty. *)
Definition emitted_from (s : list pystr) (p : pystr) : Prop :=
  (exists pre chars post,
      s = pre ++ chars ++ post
      /\ Forall (fun ch => ch <> plus) chars
      /\ p = strip (join [] chars))
  /\ strip p <> [].

(** The orders on a line that the two readings of "ascending" ask for. *)
Definition ascending_x : line -> Prop :=
  StronglySorted (fun a b => (cx a <=? cx b) = true).

Definition strictly_ascending_x : line -> Prop :=
  StronglySorted (fun a b => (cx a <? cx b) = true).

Definition x_is_number (it : item) : Prop := is_nan (cx it) = false.

(** *** More sample pages *)

(** Three tall symbols on a row and, right of them, two small ones one
    above the other, in the order the detector gave them. *)
Definition stacked_items : list item :=
  [ Item 60 500 (str ".") 10; Item 50 200 (str "B") 100;
    Item 40 500 (str "'") 10; Item 50 50 (str "A") 100;
    Item 50 350 (str "C") 100 ].

(** The detector's answer that gives them. *)
Definition stacked_page : page :=
  Rendered
    (Tuple4 true
       (Some [str "."; str "B"; str "'"; str "A"; str "C"])
       (Some [ Corners 60 500 10; Corners 50 200 100; Corners 40 500 10;
               Corners 50 50 100; Corners 50 350 100 ])).

(** The one line they form. *)
Definition stacked_line : line :=
  [ Item 50 50 (str "A") 100; Item 50 200 (str "B") 100;
    Item 50 350 (str "C") 100;
    Item 40 500 (str "'") 10; Item 60 500 (str ".") 10 ].

(** Three pages; rendering the second one raises. *)
Definition torn_document : list page :=
  [ Rendered (Tuple4 true (Some [str "A"]) (Some [Corners 10 10 20]));
    RenderRaise;
    Rendered (Tuple4 true (Some [str "B"]) (Some [Corners 10 10 20])) ].

(** The same document with a second page that has no symbol. *)
Definition blank_document : list page :=
  [ Rendered (Tuple4 true (Some [str "A"]) (Some [Corners 10 10 20]));
    Rendered (Tuple4 false None None);
    Rendered (Tuple4 true (Some [str "B"]) (Some [Corners 10 10 20])) ].

(** A run on a file with the given pages, when direct extraction finds no
    text. *)
Definition world_of (exists_ : bool) (pages : option (list page)) : world :=
  World exists_ [] (Pdf true pages)
        (str "result") (str ".txt") (str "250101_120000").

(** A page that reads [ok]. *)
Definition page_ok : page :=
  Rendered (Tuple3 (Some (letters "ok")) (Some (spaced 15 30 2))).

End Qr.

(* ================================================================== *)
(** ** Direct extraction (lines 8-39) *)

Module Direct.

Import PyStr Qr.

(** *** [str.replace], [re.sub] and [re.split] as the source calls them *)

(** [s.startswith(old)], with what follows [old] in [s]. *)
Fixpoint strip_prefix (old s : pystr) : option pystr :=
  match old, s with
  | [], _ => Some s
  | x :: old', y :: s' => if N.eqb x y then strip_prefix old' s' else None
  | _ :: _, [] => None
  end.

(** [s.replace(old, new)] for a non-empty [old]: the occurrences of [old]
    are replaced from left to right, the search going on after each one.
    The fuel is the length of [s], which such a scan cannot exceed. *)
Fixpoint replace_from (fuel : nat) (old new s : pystr) : pystr :=
  match fuel with
  | O => s
  | S fuel' =>
      match s with
      | [] => []
      | c :: t =>
          match strip_prefix old s with
          | Some rest => new ++ replace_from fuel' old new rest
          | None => c :: replace_from fuel' old new t
          end
      end
  end.

Definition replace (old new s : pystr) : pystr :=
  replace_from (length s) old new s.

Definition cr : char := 13%N.
Definition lf : char := 10%N.

(** A character that is not white space.  The class [\s] of [re] is
    [str.isspace] on a [str] pattern. *)
Definition nonspace (c : char) : bool := negb (isspace c).

(** [re.sub] of the pattern [\s+] by the empty string: every run of
    white space is deleted. *)
Definition remove_spaces (s : pystr) : pystr := filter nonspace s.

(** The pieces of [s] between the occurrences of the character [d]. *)
Fixpoint split_at (d : char) (s : pystr) : list pystr :=
  match s with
  | [] => [[]]
  | c :: t =>
      if N.eqb c d then [] :: split_at d t
      else match split_at d t with
           | p :: ps => (c :: p) :: ps
           | [] => [[c]]
           end
  end.

(** A match of the pattern [\s*\+\s*] is a [+] with all the white space
    on its two sides.  So a piece loses its white space at the end when a
    [+] follows it, and at the start when a [+] precedes it ([first]:
    none does). *)
Fixpoint trim_pieces (first : bool) (pieces : list pystr) : list pystr :=
  match pieces with
  | [] => []
  | p :: rest =>
      match rest with
      | [] => [if first then p else lstrip_by isspace p]
      | _ :: _ =>
          (if first then rstrip_by isspace p else strip p)
          :: trim_pieces false rest
      end
  end.

(** [re.split] of [s] by the pattern [\s*\+\s*]. *)
Definition split_delimiter (s : pystr) : list pystr :=
  trim_pieces true (split_at plus_char s).

(** *** [extract_text_from_pdf] *)

(** The file as [extract_text_from_pdf] sees it: whether [import fitz]
    succeeds, the pages [fitz.open] gives ([None]: it raises), and for
    each page what [page.get_text] returns ([None]: it raises). *)
Record text_pdf := TextPdf {
  fitz_ok : bool;
  text_doc : option (list (option pystr))
}.

(** Lines 26-27 on the text of one page. *)
Definition normalize (page_text : pystr) : pystr :=
  let page_text := replace [cr] [lf] (replace [cr; lf] [lf] page_text) in
  strip (remove_spaces page_text).

(** The [for page in doc] loop of lines 22-29, from the value [text_pages]
    has when [pages] are still to come; [None] when a page raises. *)
Fixpoint read_pages (pages : list (option pystr)) (text_pages : list pystr)
  : option (list pystr) :=
  match pages with
  | [] => Some text_pages
  | None :: _ => None
  | Some page_text :: rest =>
      let page_text := normalize page_text in
      read_pages rest (if truthy page_text
                       then text_pages ++ [page_text] else text_pages)
  end.

(** Lines 33-39: the text that the pages' texts make. *)
Definition assemble (text_pages : list pystr) : pystr :=
  let all_text := strip (join (str " ") text_pages) in
  if negb (truthy all_text) then []
  else
    let parts := split_delimiter all_text in
    let parts :=
      map strip (filter (fun p => truthy p && truthy (strip p)) parts) in
    join newline parts.

Definition extract_text_from_pdf (f : text_pdf) : pystr :=
  if negb (fitz_ok f) then []
  else
    match text_doc f with
    | None => []
    | Some pages =>
        match read_pages pages [] with
        | None => []
        | Some text_pages => assemble text_pages
        end
    end.

(** *** [main] on a file with both views *)

(** What [main] is given: whether the input path exists, the file as the
    two extraction functions see it, and the parts of the output name. *)
Record input := Input {
  input_exists : bool;
  text_view : text_pdf;
  qr_view : pdf;
  stem : pystr;
  suffix : pystr;
  stamp : pystr
}.

(** Line 203 sets the direct text of the run. *)
Definition world_for (i : input) : world :=
  World (input_exists i) (extract_text_from_pdf (text_view i)) (qr_view i)
        (stem i) (suffix i) (stamp i).

(** *** Notions used to state the properties *)

(** A character of the content: neither white space nor the delimiter. *)
Definition content (c : char) : bool :=
  nonspace c && negb (N.eqb c plus_char).

(** The text layer can be read: nothing raises. *)
Definition readable (f : text_pdf) (texts : list pystr) : Prop :=
  fitz_ok f = true /\ text_doc f = Some (map Some texts).

(** The characters a payload gives to the output of the QR path. *)
Definition payload_chars (ch : pystr) : pystr :=
  if eqb ch plus then [] else filter nonspace ch.

(** The payloads the detector's answers give on the pages that render. *)
Definition page_payloads (p : page) : list pystr :=
  match p with
  | RenderRaise => []
  | Rendered r => map text (collect (fst (detect r)) (snd (detect r)))
  end.

End Direct.

(* ================================================================== *)
(** * Properties *)

(** ** Strings *)

Module PyStrFacts.

Import PyStr.

Lemma truthy_true {A} (l : list A) : truthy l = true <-> l <> [].
Proof. destruct l; simpl; split; congruence. Qed.

Lemma eqb_eq (a b : pystr) : eqb a b = true <-> a = b.
Proof.
  revert b; induction a as [|x a IH]; intros [|y b]; simpl;
    try (split; [discriminate | discriminate]); try tauto.
  rewrite andb_true_iff, N.eqb_eq, IH.
  split; [intros [-> ->]; reflexivity | intros E; injection E; auto].
Qed.

Lemma eqb_neq (a b : pystr) : eqb a b = false <-> a <> b.
Proof.
  rewrite <- eqb_eq. destruct (eqb a b); split; congruence.
Qed.

Lemma join_empty_sep (parts : list pystr) : join [] parts = concat parts.
Proof.
  induction parts as [|p rest IH]; [reflexivity|].
  simpl. destruct rest as [|q rest'].
  - simpl. now rewrite app_nil_r.
  - now rewrite IH.
Qed.

Lemma lstrip_by_clean p s : clean p (lstrip_by p s).
Proof.
  induction s as [|c t IH]; simpl; [exact I|].
  destruct (p c) eqn:E; [exact IH | exact E].
Qed.

Lemma lstrip_by_id p s : clean p s -> lstrip_by p s = s.
Proof. destruct s as [|c t]; simpl; [reflexivity | intros ->; reflexivity]. Qed.

Lemma lstrip_by_suffix p s : exists pre, s = pre ++ lstrip_by p s.
Proof.
  induction s as [|c t [pre IH]]; simpl.
  - now exists [].
  - destruct (p c).
    + exists (c :: pre). simpl. now rewrite <- IH.
    + now exists [].
Qed.

Lemma rstrip_by_prefix p s : exists suf, s = rstrip_by p s ++ suf.
Proof.
  unfold rstrip_by. destruct (lstrip_by_suffix p (rev s)) as [pre E].
  exists (rev pre). rewrite <- rev_app_distr, <- E. now rewrite rev_involutive.
Qed.

Lemma rstrip_by_id p s : clean p (rev s) -> rstrip_by p s = s.
Proof.
  intros H. unfold rstrip_by. rewrite (lstrip_by_id _ _ H). apply rev_involutive.
Qed.

Lemma rstrip_by_keeps_clean p s : clean p s -> clean p (rstrip_by p s).
Proof.
  intros H. destruct (rstrip_by_prefix p s) as [suf E].
  destruct (rstrip_by p s) as [|c u]; [exact I|].
  rewrite E in H. exact H.
Qed.

Lemma strip_by_idempotent p s : strip_by p (strip_by p s) = strip_by p s.
Proof.
  unfold strip_by at 1.
  assert (C1 : clean p (strip_by p s)).
  { apply rstrip_by_keeps_clean, lstrip_by_clean. }
  assert (C2 : clean p (rev (strip_by p s))).
  { unfold strip_by, rstrip_by. rewrite rev_involutive. apply lstrip_by_clean. }
  rewrite (lstrip_by_id _ _ C1). now apply rstrip_by_id.
Qed.

Lemma strip_by_infix p s : exists pre suf, s = pre ++ strip_by p s ++ suf.
Proof.
  destruct (lstrip_by_suffix p s) as [pre E1].
  destruct (rstrip_by_prefix p (lstrip_by p s)) as [suf E2].
  exists pre, suf. unfold strip_by. now rewrite <- E2.
Qed.

Lemma strip_by_In p s c : In c (strip_by p s) -> In c s.
Proof.
  destruct (strip_by_infix p s) as (pre & suf & E). intros H.
  rewrite E, !in_app_iff. tauto.
Qed.

End PyStrFacts.

(* ================================================================== *)
(** ** Floats and sorting *)

Module PyFloatFacts.

Import PyExc PyFloat.
Local Open Scope float_scope.

Section SortFacts.
Context {A K : Type} (lt : K -> K -> bool) (key : A -> K).

Lemma insert_perm x l : Permutation (x :: l) (insert lt key x l).
Proof.
  induction l as [|y l IH]; simpl; [reflexivity|].
  destruct (lt (key y) (key x)); [|reflexivity].
  rewrite perm_swap. now constructor.
Qed.

Lemma py_sort_perm l : Permutation l (py_sort lt key l).
Proof.
  induction l as [|x l IH]; simpl; [constructor|].
  rewrite <- insert_perm. now constructor.
Qed.

Lemma py_sort_In l x : In x (py_sort lt key l) <-> In x l.
Proof.
  split; apply Permutation_in; [symmetry|]; apply py_sort_perm.
Qed.

Lemma py_sort_length l : length (py_sort lt key l) = length l.
Proof. symmetry. apply Permutation_length, py_sort_perm. Qed.

End SortFacts.

(** *** The order of floats that are not NaN *)

Lemma SFcompare_swap x y :
  SFcompare y x = option_map CompOpp (SFcompare x y).
Proof.
  destruct x as [s|s| |s m e], y as [s'|s'| |s' m' e']; simpl; try reflexivity;
    try (destruct s; reflexivity); try (destruct s'; reflexivity);
    try (destruct s, s'; reflexivity).
  destruct s, s'; try reflexivity; f_equal;
    rewrite (Z.compare_antisym e' e); destruct (e' ?= e)%Z; simpl;
    try reflexivity; rewrite Pos.compare_cont_antisym; simpl; try reflexivity.
  now rewrite CompOpp_involutive.
Qed.

Lemma SFcompare_defined x y :
  x <> S754_nan -> y <> S754_nan -> exists c, SFcompare x y = Some c.
Proof.
  destruct x as [s|s| |s m e], y as [s'|s'| |s' m' e']; simpl;
    try congruence; eauto.
Qed.

Ltac by_sign s := destruct s; simpl; try discriminate; try reflexivity; fail.

Lemma SFleb_trans x y z :
  SFleb x y = true -> SFleb y z = true -> SFleb x z = true.
Proof.
  unfold SFleb.
  destruct x as [s|s| |s m e], y as [s'|s'| |s' m' e'],
           z as [s''|s''| |s'' m'' e'']; simpl;
    try discriminate; try reflexivity;
    try by_sign s; try by_sign s'; try by_sign s'';
    try (destruct s; by_sign s'); try (destruct s'; by_sign s'');
    try (destruct s; by_sign s''); try (destruct s, s'; by_sign s'').
  destruct s, s', s''; simpl; try discriminate; try reflexivity;
    try (destruct (e ?= e')%Z; try discriminate; try reflexivity; fail);
    try (destruct (e' ?= e'')%Z; try discriminate; try reflexivity; fail);
    destruct (Z.compare_spec e e'), (Z.compare_spec e' e''),
             (Z.compare_spec e e'');
    try discriminate; try reflexivity; try lia; subst;
    rewrite ?Pos.compare_cont_spec; simpl;
    destruct (Pos.compare_spec m m'), (Pos.compare_spec m' m''),
             (Pos.compare_spec m m'');
    simpl; try discriminate; try reflexivity; try lia.
Qed.

Lemma not_nan_spec x : is_nan x = false -> Prim2SF x <> S754_nan.
Proof.
  unfold is_nan. rewrite FloatAxioms.eqb_spec, negb_false_iff. unfold SFeqb.
  intros H E. rewrite E in H. discriminate.
Qed.

Lemma ltb_asym x y : (x <? y) = true -> (y <? x) = false.
Proof.
  rewrite !ltb_spec. unfold SFltb. rewrite (SFcompare_swap (Prim2SF x) (Prim2SF y)).
  destruct (SFcompare (Prim2SF x) (Prim2SF y)) as [[]|]; simpl; congruence.
Qed.

Lemma ltb_leb x y : (x <? y) = true -> (x <=? y) = true.
Proof.
  rewrite ltb_spec, leb_spec. unfold SFltb, SFleb.
  destruct (SFcompare _ _) as [[]|]; congruence.
Qed.

Lemma not_ltb_leb x y :
  is_nan x = false -> is_nan y = false -> (y <? x) = false -> (x <=? y) = true.
Proof.
  intros Hx Hy. rewrite ltb_spec, leb_spec. unfold SFltb, SFleb.
  rewrite (SFcompare_swap (Prim2SF x)).
  destruct (SFcompare_defined _ _ (not_nan_spec _ Hx) (not_nan_spec _ Hy))
    as [c ->].
  destruct c; simpl; congruence.
Qed.

Lemma leb_trans x y z :
  (x <=? y) = true -> (y <=? z) = true -> (x <=? z) = true.
Proof. rewrite !leb_spec. apply SFleb_trans. Qed.

Lemma SFmul_comm prec emax x y : SFmul prec emax x y = SFmul prec emax y x.
Proof.
  destruct x as [s|s| |s m e], y as [s'|s'| |s' m' e']; simpl;
    try reflexivity; try (now rewrite xorb_comm).
  now rewrite xorb_comm, Pos.mul_comm, Z.add_comm.
Qed.

Lemma mul_comm x y : x * y = y * x.
Proof. apply Prim2SF_inj. rewrite !mul_spec. apply SFmul_comm. Qed.

(** [max] is not below its first argument. *)
Lemma pymax_ge_left a b : (a <=? a) = true -> (a <=? pymax a b) = true.
Proof.
  intros Ha. unfold pymax. destruct (a <? b) eqn:E; [|exact Ha].
  now apply ltb_leb.
Qed.

(** *** Sorting floats by a key *)

Section SortedByKey.
Context {A : Type} (key : A -> float).

Lemma insert_sorted x l :
  key_ok key x -> Forall (key_ok key) l ->
  StronglySorted (key_le key) l ->
  StronglySorted (key_le key) (insert PrimFloat.ltb key x l).
Proof.
  intros Hx Hl Hs. induction Hs as [|y l Hs IH Hy]; simpl.
  - repeat constructor.
  - inversion Hl as [|? ? Hyok Hlok]; subst.
    destruct (key y <? key x) eqn:E.
    + constructor; [now apply IH|].
      apply Forall_forall. intros z Hz.
      apply (Permutation_in _ (Permutation_sym (insert_perm _ _ x l))) in Hz.
      destruct Hz as [<-|Hz]; [now apply ltb_leb|].
      rewrite Forall_forall in Hy. now apply Hy.
    + assert (Hxy : key_le key x y) by now apply not_ltb_leb.
      constructor; [now constructor|].
      constructor; [exact Hxy|].
      eapply Forall_impl; [|exact Hy].
      intros z Hz. eapply leb_trans; eassumption.
Qed.

Lemma py_sort_sorted l :
  Forall (key_ok key) l ->
  StronglySorted (key_le key) (py_sort PrimFloat.ltb key l).
Proof.
  induction l as [|x l IH]; simpl; intros H; [constructor|].
  inversion H as [|? ? Hx Hl]; subst. apply insert_sorted; auto.
  apply Forall_forall. intros z Hz. apply py_sort_In in Hz.
  rewrite Forall_forall in Hl. now apply Hl.
Qed.

End SortedByKey.

Lemma median_ok (data : list float) :
  data <> [] -> exists m, median data = Ok m.
Proof.
  intros H. unfold median. cbv zeta. rewrite py_sort_length.
  destruct data as [|x data]; [contradiction|]. cbn [length Nat.eqb].
  destruct (Nat.eqb (Nat.modulo (S (length data)) 2) 1); eauto.
Qed.

End PyFloatFacts.

(* ================================================================== *)
(** ** The program *)

Module QrFacts.

Import PyStr PyExc PyFloat Qr PyStrFacts PyFloatFacts.
Local Open Scope float_scope.

(* ------------------------------------------------------------------ *)
(** *** Symbol collection *)

Lemma collect_step_app (items : list item) (p : pystr * corners) :
  collect_step items p = items ++ symbol_of p.
Proof.
  destruct p as [info [y x h|]]; unfold symbol_of, collect_step.
  - destruct (truthy info); [reflexivity | now rewrite app_nil_r].
  - now rewrite app_nil_r.
Qed.

Lemma collect_fold (l : list (pystr * corners)) (items : list item) :
  fold_left collect_step l items = items ++ flat_map symbol_of l.
Proof.
  revert items. induction l as [|p l IH]; intros items; cbn [fold_left flat_map].
  - now rewrite app_nil_r.
  - now rewrite IH, collect_step_app, <- app_assoc.
Qed.

Lemma collect_paired (infos : list pystr) (pts : list corners) :
  length infos = length pts ->
  collect infos (Some pts) = flat_map symbol_of (combine infos pts).
Proof.
  intros E. unfold collect. rewrite E, Nat.eqb_refl. apply collect_fold.
Qed.

Lemma combine_app_same {A B} (a1 a2 : list A) (b1 b2 : list B) :
  length a1 = length b1 ->
  combine (a1 ++ a2) (b1 ++ b2) = combine a1 b1 ++ combine a2 b2.
Proof.
  revert b1. induction a1 as [|x a1 IH]; intros [|y b1] E;
    try discriminate; [reflexivity|].
  cbn. f_equal. apply IH. now injection E.
Qed.

Lemma y_threshold_ok (items : list item) : exists thr, y_threshold items = Ok thr.
Proof.
  unfold y_threshold, median_h. destruct items as [|it items]; cbn [truthy].
  - eexists. reflexivity.
  - destruct (median_ok (map size (it :: items))) as [m ->]; [discriminate|].
    eexists. reflexivity.
Qed.

(** Clustering a page never raises. *)
Lemma page_lines_ok (items : list item) : exists ls, page_lines items = Ok ls.
Proof.
  unfold page_lines. destruct (negb (truthy items)); [now eexists|].
  destruct (y_threshold_ok items) as [thr ->]. now eexists.
Qed.

(* ------------------------------------------------------------------ *)
(** *** Line clustering *)

Lemma median_h_sizes (items : list item) :
  items <> [] -> median_h items = median (map size items).
Proof. destruct items; [contradiction | reflexivity]. Qed.

Lemma permutation_of_three {A} (l : list A) (a b c : A) :
  Permutation l [a; b; c] ->
  l = [a; b; c] \/ l = [a; c; b] \/ l = [b; a; c]
  \/ l = [b; c; a] \/ l = [c; a; b] \/ l = [c; b; a].
Proof.
  intros P. pose proof (Permutation_length P) as L.
  destruct l as [|x [|y [|z [|]]]]; try discriminate. clear L.
  assert (Hx : In x [a; b; c]) by (apply (Permutation_in _ P); now left).
  destruct Hx as [<-|[<-|[<-|[]]]].
  - apply Permutation_cons_inv, Permutation_length_2 in P.
    destruct P as [[-> ->]|[-> ->]]; auto.
  - assert (P' : Permutation (b :: [y; z]) (b :: [a; c])).
    { rewrite P. apply perm_swap. }
    apply Permutation_cons_inv, Permutation_length_2 in P'.
    destruct P' as [[-> ->]|[-> ->]]; auto 6.
  - assert (P' : Permutation (c :: [y; z]) (c :: [a; b])).
    { rewrite P. symmetry. apply (Permutation_cons_app [a; b] []).
      now rewrite app_nil_r. }
    apply Permutation_cons_inv, Permutation_length_2 in P'.
    destruct P' as [[-> ->]|[-> ->]]; auto 7.
Qed.

(** C3. On a page that has symbols the threshold used by the clusterer is
    [max(5.0, 0.6 * m)] where [m] is the median of the symbols' heights,
    and it is never below 5.0; the expression takes 20.0 for the median of
    no symbols (threshold 12.0); and heights 18, 20, 22, in whatever order
    they were detected, have median 20 and threshold 12.0. *)
Theorem y_threshold_formula :
  (forall items : list item,
      items <> [] ->
      exists m,
        median (map size items) = Ok m
        /\ median_h items = Ok m
        /\ y_threshold items = Ok (pymax 5 (0.6 * m))
        /\ (5 <=? pymax 5 (0.6 * m)) = true
        /\ page_lines items
           = Ok (cluster_finish
                   (fold_left (cluster_step (pymax 5 (0.6 * m)))
                              (py_sort lt_yx key_yx items) cluster_init)))
  /\ (median_h [] = Ok 20 /\ y_threshold [] = Ok 12)
  /\ (forall items : list item,
        Permutation (map size items) [18; 20; 22] ->
        median_h items = Ok 20 /\ y_threshold items = Ok 12).
Proof.
  split; [|split].
  - intros items H.
    destruct (median_ok (map size items)) as [m Hm].
    { destruct items; [contradiction | discriminate]. }
    exists m. rewrite (median_h_sizes _ H).
    assert (T : y_threshold items = Ok (pymax 5 (0.6 * m))).
    { unfold y_threshold. now rewrite (median_h_sizes _ H), Hm. }
    repeat split; auto.
    + apply pymax_ge_left. reflexivity.
    + unfold page_lines. destruct items; [contradiction|].
      cbn [truthy negb]. now rewrite T.
  - split; vm_compute; reflexivity.
  - intros items P.
    assert (H : items <> []).
    { intros ->. apply Permutation_length in P. discriminate. }
    unfold y_threshold. rewrite (median_h_sizes _ H).
    apply permutation_of_three in P.
    destruct P as [ -> | [ -> | [ -> | [ -> | [ -> | -> ]]]]];
      split; vm_compute; reflexivity.
Qed.

Example median_of_two : median [22; 18] = Ok 20.
Proof. reflexivity. Qed.

(** Heights 22, 18, 20 as detected. *)
Lemma y_threshold_formula_witness :
  let items := [ Item 10 15 (str "a") 22; Item 10 45 (str "b") 18;
                 Item 10 75 (str "c") 20 ] in
  median_h items = Ok 20 /\ y_threshold items = Ok 12.
Proof.
  cbn zeta. apply (proj2 (proj2 y_threshold_formula)). cbn [map size].
  apply perm_trans with [18; 22; 20]; [apply perm_swap|].
  apply perm_skip, perm_swap.
Defined.

Lemma cluster_fold_snoc (thr : float) (seen : list item) (it : item) :
  fold_left (cluster_step thr) (seen ++ [it]) cluster_init
  = cluster_step thr (fold_left (cluster_step thr) seen cluster_init) it.
Proof. now rewrite fold_left_app. Qed.

Lemma cluster_running_centroid (thr : float) (seen : list item) :
  seen <> [] ->
  exists c, current_y (fold_left (cluster_step thr) seen cluster_init) = Some c.
Proof.
  destruct seen as [|x seen _] using rev_ind; [contradiction|]. intros _.
  rewrite cluster_fold_snoc.
  set (st := fold_left (cluster_step thr) seen cluster_init).
  unfold cluster_step. destruct (current_y st) as [c|]; [|now eexists].
  destruct (abs (cy x - c) <=? thr); now eexists.
Qed.

(** C4. In the pass over the symbols, once a symbol has been seen there
    is a running centroid [c]; when the next symbol lies within the
    threshold of it, the symbol joins the current cluster and the centroid
    becomes [0.7 * c + 0.3 * y]; otherwise the current cluster, sorted by
    x, is appended to the lines and the symbol starts a cluster whose
    centroid is its own y. *)
Theorem cluster_step_rule (thr : float) (seen : list item) (it : item) :
  seen <> [] ->
  let st := fold_left (cluster_step thr) seen cluster_init in
  let st' := fold_left (cluster_step thr) (seen ++ [it]) cluster_init in
  exists c,
    current_y st = Some c
    /\ ((abs (cy it - c) <=? thr) = true ->
        st' = Cluster (lines st) (current_line st ++ [it])
                      (Some (0.7 * c + 0.3 * cy it)))
    /\ ((abs (cy it - c) <=? thr) = false ->
        st' = Cluster (lines st
                         ++ [py_sort PrimFloat.ltb cx (current_line st)])
                      [it] (Some (cy it))).
Proof.
  intros Hs. cbn zeta.
  destruct (cluster_running_centroid thr seen Hs) as [c Hc].
  exists c. split; [exact Hc|].
  rewrite cluster_fold_snoc.
  set (st := fold_left (cluster_step thr) seen cluster_init) in *.
  unfold cluster_step. rewrite Hc. cbv zeta.
  split; intros H; rewrite H; [|reflexivity].
  now rewrite (mul_comm 0.7 c), (mul_comm 0.3 (cy it)).
Qed.

(** Under threshold 12, a symbol two pixels below a cluster of one joins
    it, and one thirty pixels below starts the next line. *)
Lemma cluster_step_rule_witness :
  fold_left (cluster_step 12)
            [Item 10 0 (str "a") 20; Item 12 30 (str "b") 20] cluster_init
  = Cluster [] [Item 10 0 (str "a") 20; Item 12 30 (str "b") 20]
            (Some (0.7 * 10 + 0.3 * 12))
  /\ fold_left (cluster_step 12)
               [Item 10 0 (str "a") 20; Item 40 0 (str "b") 20] cluster_init
     = Cluster [[Item 10 0 (str "a") 20]] [Item 40 0 (str "b") 20] (Some 40).
Proof.
  split.
  - destruct (cluster_step_rule 12 [Item 10 0 (str "a") 20]
                                (Item 12 30 (str "b") 20))
      as (c & Hc & Hin & _); [discriminate|].
    injection Hc as <-. apply Hin. reflexivity.
  - destruct (cluster_step_rule 12 [Item 10 0 (str "a") 20]
                                (Item 40 0 (str "b") 20))
      as (c & Hc & _ & Hout); [discriminate|].
    injection Hc as <-. apply Hout. reflexivity.
Defined.

Lemma sort_by_x_ascending (l : line) :
  Forall x_is_number l -> ascending_x (sort_by_x l).
Proof. apply (py_sort_sorted cx). Qed.

Lemma cluster_fold_ascending (thr : float) (l : list item) (st : cluster) :
  Forall x_is_number l ->
  Forall ascending_x (lines st) ->
  Forall x_is_number (current_line st) ->
  let st' := fold_left (cluster_step thr) l st in
  Forall ascending_x (lines st') /\ Forall x_is_number (current_line st').
Proof.
  intros Hl. revert st. induction Hl as [|it l Hit _ IH]; intros st Hs Hc.
  - now split.
  - cbn [fold_left]. apply IH; unfold cluster_step;
      destruct (current_y st) as [c|]; cbn [lines current_line]; auto;
      destruct (abs (cy it - c) <=? thr); cbn [lines current_line]; auto.
    + apply Forall_app. split; [exact Hs|].
      constructor; [|constructor]. now apply sort_by_x_ascending.
    + apply Forall_app. split; auto.
Qed.

(** C5, as stated, fails: the page of [stacked_items] has the one line
    [stacked_line], which ends with two symbols of equal centroid x. *)
Lemma lines_not_strictly_ascending :
  process_page stacked_page = page_lines stacked_items
  /\ page_lines stacked_items = Ok [stacked_line]
  /\ Forall x_is_number stacked_items
  /\ ~ strictly_ascending_x stacked_line.
Proof.
  split; [reflexivity|]. split; [vm_compute; reflexivity|]. split.
  - repeat constructor.
  - intros H. unfold strictly_ascending_x, stacked_line in H.
    do 3 (apply StronglySorted_inv in H; destruct H as [H _]).
    apply StronglySorted_inv in H. destruct H as [_ H].
    apply Forall_inv in H. vm_compute in H. discriminate.
Qed.

(** C5, amended. When every centroid x is a number, the symbols of every
    line of the page are in non-decreasing order of x: no symbol has a
    smaller x than one before it in the line. *)
Theorem lines_ascending_x (items : list item) (ls : list line) :
  Forall x_is_number items ->
  page_lines items = Ok ls ->
  Forall ascending_x ls.
Proof.
  intros Hn. unfold page_lines.
  destruct (negb (truthy items)); [intros [= <-]; constructor|].
  destruct (y_threshold_ok items) as [thr ->]. cbn [bind]. intros [= <-].
  destruct (cluster_fold_ascending thr (py_sort lt_yx key_yx items)
                                   cluster_init) as [Hs Hc];
    try constructor.
  - apply Forall_forall. intros it Hit. apply py_sort_In in Hit.
    rewrite Forall_forall in Hn. now apply Hn.
  - unfold cluster_finish. destruct (truthy _); [|exact Hs].
    apply Forall_app. split; [exact Hs|].
    constructor; [|constructor]. now apply sort_by_x_ascending.
Qed.

(** On [stacked_items] the one line is in non-decreasing order of x. *)
Lemma lines_ascending_x_witness : Forall ascending_x [stacked_line].
Proof.
  apply (lines_ascending_x stacked_items).
  - repeat constructor.
  - vm_compute. reflexivity.
Defined.

(* ------------------------------------------------------------------ *)
(** *** Paragraph reconstruction *)

Lemma feed_page_stream (st : acc) (page_lines : list line) :
  feed_page st page_lines
  = fold_left feed (concat (map (map text) page_lines)) st.
Proof.
  unfold feed_page. destruct page_lines as [|l ls]; [reflexivity|].
  cbn [truthy negb]. generalize (l :: ls) as pl. intros pl. revert st.
  induction pl as [|l' pl IH]; intros st; [reflexivity|].
  cbn [fold_left map concat]. rewrite fold_left_app. apply IH.
Qed.

(** The three nested loops are one pass over the payloads in reading
    order. *)
Lemma feed_pages_stream (st : acc) (lines_all_pages : list (list line)) :
  fold_left feed_page lines_all_pages st
  = fold_left feed (stream lines_all_pages) st.
Proof.
  unfold stream. revert st.
  induction lines_all_pages as [|pl rest IH]; intros st; [reflexivity|].
  cbn [fold_left map concat]. rewrite fold_left_app, <- feed_page_stream.
  apply IH.
Qed.

Lemma paragraphs_of_stream (lines_all_pages : list (list line)) :
  paragraphs_of lines_all_pages
  = flush (fold_left feed (stream lines_all_pages) ([], [])).
Proof. unfold paragraphs_of. now rewrite feed_pages_stream. Qed.

Lemma feed_plus (paragraphs current : list pystr) :
  feed (paragraphs, current) plus = (flush (paragraphs, current), []).
Proof. reflexivity. Qed.

Lemma feed_other (paragraphs current : list pystr) (ch : pystr) :
  ch <> plus -> feed (paragraphs, current) ch = (paragraphs, current ++ [ch]).
Proof.
  intros H. unfold feed. apply eqb_neq in H. now rewrite H.
Qed.

Lemma feed_no_delimiter (rest : list pystr) (paragraphs current : list pystr) :
  Forall (fun ch => ch <> plus) rest ->
  fold_left feed rest (paragraphs, current) = (paragraphs, current ++ rest).
Proof.
  intros H. revert current.
  induction H as [|ch rest Hch _ IH]; intros current; cbn [fold_left].
  - now rewrite app_nil_r.
  - rewrite (feed_other _ _ _ Hch), IH, <- app_assoc. reflexivity.
Qed.

Lemma emitted_from_snoc s ch p : emitted_from s p -> emitted_from (s ++ [ch]) p.
Proof.
  intros [(pre & chars & post & E & Hc & Hp) Hn]. split; [|exact Hn].
  exists pre, chars, (post ++ [ch]). rewrite E, <- !app_assoc. auto.
Qed.

Lemma flush_emitted s pre paragraphs current :
  s = pre ++ current ->
  Forall (fun ch => ch <> plus) current ->
  Forall (emitted_from s) paragraphs ->
  Forall (emitted_from s) (flush (paragraphs, current)).
Proof.
  intros E Hc Hp. unfold flush.
  destruct (truthy (strip (join [] current))) eqn:T; [|exact Hp].
  apply Forall_app. split; [exact Hp|]. constructor; [|constructor].
  split.
  - exists pre, current, []. rewrite app_nil_r. auto.
  - unfold strip. rewrite strip_by_idempotent. now apply truthy_true.
Qed.

Lemma feed_invariant (s : list pystr) :
  let st := fold_left feed s ([], []) in
  Forall (emitted_from s) (fst st)
  /\ Forall (fun ch => ch <> plus) (snd st)
  /\ exists pre, s = pre ++ snd st.
Proof.
  induction s as [|ch s IH] using rev_ind; cbn zeta.
  - simpl. repeat split; auto. now exists [].
  - rewrite fold_left_app. cbn [fold_left].
    destruct (fold_left feed s ([], [])) as [paragraphs current].
    cbn zeta in IH. cbn [fst snd] in IH. destruct IH as (Hp & Hc & pre & E).
    destruct (list_eq_dec N.eq_dec ch plus) as [->|Hne].
    + rewrite feed_plus. cbn [fst snd]. repeat split; auto.
      * apply Forall_impl with (P := emitted_from s);
          [intros p; apply emitted_from_snoc|].
        now apply flush_emitted with pre.
      * exists (s ++ [plus]). now rewrite app_nil_r.
    + rewrite (feed_other _ _ _ Hne). cbn [fst snd]. repeat split.
      * eapply Forall_impl; [|exact Hp]. intros p; apply emitted_from_snoc.
      * apply Forall_app. split; auto.
      * exists pre. now rewrite E, <- app_assoc.
Qed.

Lemma paragraphs_emitted (s : list pystr) :
  Forall (emitted_from s) (flush (fold_left feed s ([], []))).
Proof.
  destruct (feed_invariant s) as (Hp & Hc & pre & E).
  destruct (fold_left feed s ([], [])) as [paragraphs current].
  now apply flush_emitted with pre.
Qed.

Lemma join_single_chars (chars : list pystr) (c : char) :
  Forall (fun ch => length ch = 1%nat) chars ->
  In c (join [] chars) -> In [c] chars.
Proof.
  rewrite join_empty_sep. intros H Hin. apply in_concat in Hin.
  destruct Hin as (ch & Hch & Hc). rewrite Forall_forall in H.
  specialize (H ch Hch). destruct ch as [|c' [|]]; try discriminate.
  destruct Hc as [->|[]]. exact Hch.
Qed.

Lemma double_delimiter (pre post : list pystr) (st : acc) :
  fold_left feed (pre ++ plus :: plus :: post) st
  = fold_left feed (pre ++ plus :: post) st.
Proof.
  rewrite !fold_left_app. cbn [fold_left].
  destruct (fold_left feed pre st) as [paragraphs current].
  rewrite feed_plus. reflexivity.
Qed.

(** C1. Every paragraph that [decode_qr_from_pdf] emits is the trimmed
    concatenation of a run of consecutive payloads none of which is the
    delimiter ["+"], and is not empty after trimming; when every payload is
    a single character no paragraph contains the character [+]; and two
    delimiters in a row give the paragraphs that one gives, so nothing is
    emitted for the empty span between them. *)
Theorem paragraphs_exclude_delimiter (lines_all_pages : list (list line)) :
  let s := stream lines_all_pages in
  Forall (fun p =>
            (exists pre chars post,
                s = pre ++ chars ++ post
                /\ Forall (fun ch => ch <> plus) chars
                /\ p = strip (join [] chars))
            /\ strip p <> [])
         (paragraphs_of lines_all_pages)
  /\ (Forall (fun ch => length ch = 1%nat) s ->
      Forall (fun p => ~ In plus_char p) (paragraphs_of lines_all_pages))
  /\ (forall pre post other,
         s = pre ++ plus :: plus :: post ->
         stream other = pre ++ plus :: post ->
         paragraphs_of lines_all_pages = paragraphs_of other).
Proof.
  cbn zeta. rewrite paragraphs_of_stream.
  pose proof (paragraphs_emitted (stream lines_all_pages)) as H.
  split; [exact H|split].
  - intros Hs. eapply Forall_impl; [|exact H].
    intros p [(pre & chars & post & E & Hc & ->) _] Hin.
    apply strip_by_In in Hin. apply join_single_chars in Hin.
    + rewrite Forall_forall in Hc. now apply (Hc _ Hin).
    + rewrite E in Hs. apply Forall_app in Hs. destruct Hs as [_ Hs].
      apply Forall_app in Hs. tauto.
  - intros pre post other E E'.
    rewrite paragraphs_of_stream, E, E'. now rewrite double_delimiter.
Qed.

(** On the row a++b every payload is one character, so no paragraph has
    a [+], and the paragraphs are those of the row a+b. *)
Lemma paragraphs_exclude_delimiter_witness :
  Forall (fun p => ~ In plus_char p) (paragraphs_of [[row (letters "a++b")]])
  /\ paragraphs_of [[row (letters "a++b")]] = [str "a"; str "b"].
Proof.
  destruct (paragraphs_exclude_delimiter [[row (letters "a++b")]])
    as (_ & Hsingle & Hdouble).
  split.
  - apply Hsingle. repeat constructor.
  - apply (Hdouble (letters "a") (letters "b") [[row (letters "a+b")]]);
      reflexivity.
Defined.

(** C2. When the payloads after the last delimiter (or all of them, when
    there is none) are [rest], the paragraphs are those closed by the
    delimiters followed by the trimmed concatenation of [rest], unless that
    is empty; and the symbols H,E,L,L,O,+,W,O,R,L,D on one line give the
    paragraphs HELLO and WORLD, joined by one newline. *)
Theorem tail_is_last_paragraph :
  (forall (lines_all_pages closed : list (list line)) (rest : list pystr),
      stream lines_all_pages = stream closed ++ rest ->
      (stream closed = [] \/ exists pre, stream closed = pre ++ [plus]) ->
      Forall (fun ch => ch <> plus) rest ->
      paragraphs_of lines_all_pages
      = paragraphs_of closed
        ++ (if truthy (strip (join [] rest))
            then [strip (join [] rest)] else []))
  /\ (forall l : line,
        map text l = letters "HELLO+WORLD" ->
        paragraphs_of [[l]] = [str "HELLO"; str "WORLD"]
        /\ compose [[l]] = str "HELLO" ++ newline ++ str "WORLD").
Proof.
  split.
  - intros lap closed rest E Hpre Hrest.
    rewrite !paragraphs_of_stream, E, fold_left_app.
    assert (Hst : snd (fold_left feed (stream closed) ([], [])) = []).
    { destruct Hpre as [->|[pre ->]]; [reflexivity|].
      rewrite fold_left_app. cbn [fold_left].
      destruct (fold_left feed pre ([], [])) as [ps cur].
      now rewrite feed_plus. }
    destruct (fold_left feed (stream closed) ([], [])) as [ps cur].
    cbn [fst snd] in *. subst cur.
    rewrite (feed_no_delimiter _ _ _ Hrest). cbn [app].
    change (flush (ps, [])) with ps. cbn [flush].
    destruct (truthy (strip (join [] rest))); [reflexivity|].
    now rewrite app_nil_r.
  - intros l E.
    assert (P : paragraphs_of [[l]] = [str "HELLO"; str "WORLD"]).
    { rewrite paragraphs_of_stream. unfold stream. cbn [map concat].
      rewrite !app_nil_r, E. vm_compute. reflexivity. }
    split; [exact P|]. unfold compose. rewrite P. vm_compute. reflexivity.
Qed.

(** The row HELLO+WORLD: the paragraph HELLO is closed by the delimiter
    and WORLD is the remainder. *)
Lemma tail_is_last_paragraph_witness :
  paragraphs_of [[row (letters "HELLO+WORLD")]] = [str "HELLO"; str "WORLD"].
Proof.
  refine (proj1 tail_is_last_paragraph
                [[row (letters "HELLO+WORLD")]]
                [[row (letters "HELLO+")]]
                (letters "WORLD") eq_refl _ _).
  - right. exists (letters "HELLO"). reflexivity.
  - repeat constructor; discriminate.
Defined.

(** The same page from the detector's answer, the symbols reported from
    right to left. *)
Example scenario_a_end_to_end :
  decode_qr_from_pdf
    (Pdf true (Some [Rendered (Tuple4 true (Some (letters "DLROW+OLLEH"))
                                      (Some (spaced 315 (-30) 11)))]))
  = Ok (str "HELLO" ++ newline ++ str "WORLD").
Proof. vm_compute. reflexivity. Qed.

Lemma page_lines_single (it : item) : page_lines [it] = Ok [[it]].
Proof. reflexivity. Qed.

(** C10. A payload ends the paragraph exactly when it is the string ["+"]:
    then the accumulator is flushed and reset, and any other payload is
    appended to the accumulator as it is.  A payload longer than one
    character is never the delimiter, so a symbol that decodes to [a+b]
    puts the character [+] into the output. *)
Theorem delimiter_is_exactly_plus :
  (forall (st : acc) (ch : pystr),
      (ch = plus /\ feed st ch = (flush st, []))
      \/ (ch <> plus /\ feed st ch = (fst st, snd st ++ [ch])))
  /\ (forall (st : acc) (ch : pystr),
        (1 < length ch)%nat -> feed st ch = (fst st, snd st ++ [ch]))
  /\ (forall y x h,
        decode_qr_from_pdf
          (Pdf true (Some [Rendered (Tuple4 true (Some [str "a+b"])
                                            (Some [Corners y x h]))]))
        = Ok (str "a+b")
        /\ In plus_char (str "a+b")).
Proof.
  assert (G : forall (st : acc) ch,
             ch <> plus -> feed st ch = (fst st, snd st ++ [ch])).
  { intros [ps cur] ch H. now apply feed_other. }
  split; [|split].
  - intros [ps cur] ch. destruct (list_eq_dec N.eq_dec ch plus) as [->|H].
    + left. split; [reflexivity|apply feed_plus].
    + right. split; [exact H|now apply G].
  - intros st ch Hlen. apply G. intros ->. vm_compute in Hlen. lia.
  - intros y x h. split; [|vm_compute; tauto].
    unfold decode_qr_from_pdf. cbn [imports_ok negb doc].
    cbn [process_pages process_page detect collect length Nat.eqb combine
         fold_left collect_step].
    assert (T : truthy (str "a+b") = true) by reflexivity.
    rewrite T. cbn [app]. rewrite page_lines_single. reflexivity.
Qed.

(** The payload a+b after the payload x. *)
Lemma delimiter_is_exactly_plus_witness :
  feed ([], [str "x"]) (str "a+b") = ([], [str "x"; str "a+b"]).
Proof.
  apply (proj1 (proj2 delimiter_is_exactly_plus) ([], [str "x"]) (str "a+b")).
  cbn. lia.
Defined.

(* ------------------------------------------------------------------ *)
(** *** The page loop *)

Lemma stream_app (a b : list (list line)) : stream (a ++ b) = stream a ++ stream b.
Proof. unfold stream. now rewrite map_app, concat_app. Qed.

Lemma compose_stream (a b : list (list line)) :
  stream a = stream b -> compose a = compose b.
Proof.
  intros E. unfold compose. now rewrite !paragraphs_of_stream, E.
Qed.

Lemma process_pages_from (pages : list page) (acc0 : list (list line)) :
  process_pages pages acc0
  = bind (process_pages pages []) (fun ls => Ok (acc0 ++ ls)).
Proof.
  revert acc0. induction pages as [|p rest IH]; intros acc0; cbn [process_pages].
  - cbn. now rewrite app_nil_r.
  - destruct (process_page p) as [ls|e]; cbn [bind]; [|reflexivity].
    rewrite (IH (acc0 ++ [ls])), (IH ([] ++ [ls])).
    destruct (process_pages rest []) as [ls'|e]; cbn [bind]; [|reflexivity].
    now rewrite <- app_assoc.
Qed.

Lemma process_pages_app (a b : list page) (acc0 : list (list line)) :
  process_pages (a ++ b) acc0 = bind (process_pages a acc0) (process_pages b).
Proof.
  revert acc0. induction a as [|p a IH]; intros acc0; cbn [app process_pages].
  - reflexivity.
  - destruct (process_page p) as [ls|e]; cbn [bind]; [apply IH|reflexivity].
Qed.

(** A page that contributes no line is as good as absent. *)
Lemma empty_page_skipped (p : page) (before after : list page) :
  process_page p = Ok [] ->
  decode_qr_from_pdf (Pdf true (Some (before ++ p :: after)))
  = decode_qr_from_pdf (Pdf true (Some (before ++ after))).
Proof.
  intros Hp. unfold decode_qr_from_pdf. cbn [imports_ok negb doc].
  rewrite !process_pages_app. cbn [process_pages]. rewrite Hp. cbn [bind].
  destruct (process_pages before []) as [acc0|e]; cbn [bind]; [|reflexivity].
  rewrite (process_pages_from after (acc0 ++ [[]])),
          (process_pages_from after acc0).
  destruct (process_pages after []) as [ls|e]; cbn [bind]; [|reflexivity].
  f_equal. apply compose_stream. rewrite !stream_app.
  change (stream [[]]) with (@nil pystr). now rewrite app_nil_r.
Qed.

Lemma render_failure_raises (before after : list page) (acc0 : list (list line)) :
  process_pages (before ++ RenderRaise :: after) acc0 = Raise RenderError.
Proof.
  rewrite process_pages_app.
  revert acc0. induction before as [|p rest IH]; intros acc0.
  - reflexivity.
  - cbn [process_pages]. destruct (process_page p) as [ls|e] eqn:E; cbn [bind].
    + apply IH.
    + destruct p as [|r]; cbn in E.
      * congruence.
      * destruct (detect r) as [infos pts].
        destruct (page_lines_ok (collect infos pts)) as [ls E'].
        congruence.
Qed.

(** C6. When the payload list and the geometry list differ in length no
    pair is formed: the page has no item, it contributes the empty list of
    lines without raising, and the document decodes as it does without
    that page. *)
Theorem length_mismatch_yields_no_symbols
    (decoded_info : list pystr) (pts : list corners) :
  length decoded_info <> length pts ->
  collect decoded_info (Some pts) = []
  /\ forall r, detect r = (decoded_info, Some pts) ->
       process_page (Rendered r) = Ok []
       /\ forall before after,
           decode_qr_from_pdf (Pdf true (Some (before ++ Rendered r :: after)))
           = decode_qr_from_pdf (Pdf true (Some (before ++ after))).
Proof.
  intros H.
  assert (C : collect decoded_info (Some pts) = []).
  { unfold collect. apply Nat.eqb_neq in H. now rewrite H. }
  split; [exact C|]. intros r Hr.
  assert (P : process_page (Rendered r) = Ok []).
  { cbn [process_page]. now rewrite Hr, C. }
  split; [exact P|]. intros before after. now apply empty_page_skipped.
Qed.

(** A detector answer with three payloads and two corner arrays: the page
    has no symbol and decoding goes on. *)
Lemma length_mismatch_yields_no_symbols_witness :
  let infos := [str "a"; str "b"; str "c"] in
  let pts := [Corners 10 10 20; Corners 10 40 20] in
  collect infos (Some pts) = []
  /\ process_page (Rendered (Tuple4 true (Some infos) (Some pts))) = Ok [].
Proof.
  cbn zeta.
  destruct (length_mismatch_yields_no_symbols
              [str "a"; str "b"; str "c"]
              [Corners 10 10 20; Corners 10 40 20]) as [C P].
  - cbn. lia.
  - split; [exact C|]. apply (P (Tuple4 true _ _)). reflexivity.
Defined.

(** C9. With lists of equal length, a symbol whose corner array makes the
    centroid or height computation raise is the only one skipped: the items
    of the page are those of the symbols before it followed by those of the
    symbols after it, and the page is clustered from them without
    raising. *)
Theorem bad_corners_skip_one_symbol
    (infos1 infos2 : list pystr) (info : pystr) (pts1 pts2 : list corners) :
  length infos1 = length pts1 ->
  length infos2 = length pts2 ->
  let decoded_info := infos1 ++ info :: infos2 in
  let points := pts1 ++ BadCorners :: pts2 in
  collect decoded_info (Some points)
  = collect infos1 (Some pts1) ++ collect infos2 (Some pts2)
  /\ collect decoded_info (Some points)
     = collect (infos1 ++ infos2) (Some (pts1 ++ pts2))
  /\ forall r, detect r = (decoded_info, Some points) ->
       exists ls,
         process_page (Rendered r) = Ok ls
         /\ page_lines (collect (infos1 ++ infos2) (Some (pts1 ++ pts2)))
            = Ok ls.
Proof.
  intros E1 E2. cbn zeta.
  assert (C : collect (infos1 ++ info :: infos2)
                      (Some (pts1 ++ BadCorners :: pts2))
              = collect infos1 (Some pts1) ++ collect infos2 (Some pts2)).
  { rewrite !collect_paired; auto.
    - rewrite combine_app_same by exact E1. cbn [combine].
      rewrite flat_map_app. cbn [flat_map]. reflexivity.
    - rewrite !length_app. cbn [length]. lia. }
  assert (C' : collect (infos1 ++ infos2) (Some (pts1 ++ pts2))
               = collect infos1 (Some pts1) ++ collect infos2 (Some pts2)).
  { rewrite !collect_paired; auto.
    - rewrite combine_app_same by exact E1. now rewrite flat_map_app.
    - rewrite !length_app. lia. }
  split; [exact C|split; [now rewrite C, C'|]].
  intros r Hr. cbn [process_page]. rewrite Hr, C, C'.
  destruct (page_lines_ok
              (collect infos1 (Some pts1) ++ collect infos2 (Some pts2)))
    as [ls E].
  exists ls. now rewrite E.
Qed.

(** Three symbols, the second with unusable corners: the first and third
    are kept. *)
Lemma bad_corners_skip_one_symbol_witness :
  collect [str "a"; str "b"; str "c"]
          (Some [Corners 10 10 20; BadCorners; Corners 10 70 20])
  = [Item 10 10 (str "a") 20; Item 10 70 (str "c") 20].
Proof.
  exact (proj1 (bad_corners_skip_one_symbol
                  [str "a"] [str "c"] (str "b")
                  [Corners 10 10 20] [Corners 10 70 20] eq_refl eq_refl)).
Defined.

(** C7, as stated, fails: were the page that does not render a page of
    zero symbols, [torn_document] would decode as [blank_document] does, to
    the text AB; decoding raises instead, and [main] exits with status 2
    and writes nothing. *)
Lemma render_failure_propagates :
  decode_qr_from_pdf (Pdf true (Some blank_document)) = Ok (str "AB")
  /\ decode_qr_from_pdf (Pdf true (Some torn_document)) = Raise RenderError
  /\ ~ (exists t, decode_qr_from_pdf (Pdf true (Some torn_document)) = Ok t)
  /\ run (World true [] (Pdf true (Some torn_document))
                (str "result") (str ".txt") (str "250101_120000"))
     = ([Stderr (Some RenderError)], 2%Z).
Proof.
  assert (E : decode_qr_from_pdf (Pdf true (Some torn_document))
              = Raise RenderError) by (vm_compute; reflexivity).
  split; [vm_compute; reflexivity|]. split; [exact E|split].
  - intros [t Ht]. rewrite E in Ht. discriminate.
  - vm_compute. reflexivity.
Qed.

Lemma run_unfold (w : world) :
  run w
  = if negb (in_exists w) then ([Stderr None], 1%Z)
    else if truthy (direct_text w)
         then ([WriteText (stamped_name w) (direct_text w);
                Stdout (stamped_name w)], 0%Z)
         else match decode_qr_from_pdf (file w) with
              | Ok t => ([WriteText (stamped_name w) t;
                          Stdout (stamped_name w)], 0%Z)
              | Raise e => ([Stderr (Some e)], 2%Z)
              end.
Proof.
  unfold run, main, seq, emit, sys_exit, ret.
  destruct (in_exists w); cbn [negb]; [|reflexivity].
  destruct (truthy (direct_text w)); cbn [negb]; [reflexivity|].
  destruct (decode_qr_from_pdf (file w)); reflexivity.
Qed.

(** C7, amended. A page that fails to render is not recovered: whatever
    the other pages are, [decode_qr_from_pdf] raises the rendering error,
    and [main], having found no direct text, reports it and exits with
    status 2 without writing.  The failure that is recovered locally is the
    detector's: such a page contributes nothing and the document decodes as
    it does without it. *)
Theorem render_failure_aborts_decoding (before after : list page) :
  decode_qr_from_pdf (Pdf true (Some (before ++ RenderRaise :: after)))
  = Raise RenderError
  /\ (forall stem suffix ts,
        run (World true [] (Pdf true (Some (before ++ RenderRaise :: after)))
                   stem suffix ts)
        = ([Stderr (Some RenderError)], 2%Z))
  /\ decode_qr_from_pdf
       (Pdf true (Some (before ++ Rendered DetectRaise :: after)))
     = decode_qr_from_pdf (Pdf true (Some (before ++ after))).
Proof.
  assert (E : decode_qr_from_pdf
                (Pdf true (Some (before ++ RenderRaise :: after)))
              = Raise RenderError).
  { unfold decode_qr_from_pdf. cbn [imports_ok negb doc].
    now rewrite render_failure_raises. }
  split; [exact E|split].
  - intros stem suffix ts. rewrite run_unfold.
    cbn [in_exists negb direct_text truthy file]. now rewrite E.
  - now apply empty_page_skipped.
Qed.

(* ------------------------------------------------------------------ *)
(** *** [main] *)

(** C8. The exit status is 1 exactly when the input file does not exist
    and 2 exactly when it exists, direct extraction gave nothing and the QR
    fallback raised; in both cases, and whenever the status is not 0,
    nothing is written.  With status 0 the run consists of one write of the
    final text, made after the text is complete, and the message that
    follows it. *)
Theorem main_exit_status_and_output (w : world) :
  (snd (run w) = 1%Z <-> in_exists w = false)
  /\ (snd (run w) = 2%Z <->
      in_exists w = true /\ direct_text w = []
      /\ exists e, decode_qr_from_pdf (file w) = Raise e)
  /\ (snd (run w) <> 0%Z -> writes (fst (run w)) = [])
  /\ (snd (run w) = 0%Z ->
      exists t,
        fst (run w) = [WriteText (stamped_name w) t; Stdout (stamped_name w)]
        /\ writes (fst (run w)) = [(stamped_name w, t)]
        /\ (if truthy (direct_text w) then t = direct_text w
            else decode_qr_from_pdf (file w) = Ok t)).
Proof.
  rewrite run_unfold.
  destruct (in_exists w); cbn [negb fst snd].
  2: { repeat split; try reflexivity; try discriminate; try tauto.
       intros (H & _); discriminate. }
  destruct (direct_text w) as [|c t] eqn:D; cbn [truthy fst snd].
  - destruct (decode_qr_from_pdf (file w)) as [t|e]; cbn [fst snd].
    + repeat split; try discriminate; try congruence.
      * intros (_ & _ & e & He). discriminate.
      * intros _. exists t. auto.
    + repeat split; try discriminate; try congruence; eauto.
  - repeat split; try discriminate; try congruence.
    + intros (_ & H & _). discriminate.
    + intros _. exists (c :: t). auto.
Qed.

Lemma main_exit_status_and_output_witness :
  snd (run (world_of false None)) = 1%Z
  /\ snd (run (world_of true (Some [RenderRaise]))) = 2%Z
  /\ writes (fst (run (world_of true (Some [RenderRaise])))) = []
  /\ writes (fst (run (world_of true (Some [page_ok]))))
     = [(str "result_250101_120000.txt", str "ok")].
Proof.
  split; [|split; [|split]].
  - apply (proj1 (main_exit_status_and_output _)). reflexivity.
  - apply (proj1 (proj2 (main_exit_status_and_output _))).
    split; [reflexivity|]. split; [reflexivity|]. now exists RenderError.
  - apply (proj1 (proj2 (proj2 (main_exit_status_and_output _)))).
    vm_compute. discriminate.
  - destruct (proj2 (proj2 (proj2 (main_exit_status_and_output
                                     (world_of true (Some [page_ok])))))
                    eq_refl) as (t & _ & W & D).
    vm_compute in D. injection D as <-. exact W.
Defined.

End QrFacts.

(* ================================================================== *)
(** ** More on strings *)

Module TextFacts.

Import PyStr PyStrFacts.

Lemma lstrip_by_split p s :
  exists pre, s = pre ++ lstrip_by p s /\ Forall (fun c => p c = true) pre.
Proof.
  induction s as [|c t (pre & E & F)]; simpl.
  - now exists [].
  - destruct (p c) eqn:Hc.
    + exists (c :: pre). split; [simpl; now rewrite <- E | now constructor].
    + now exists [].
Qed.

Lemma rstrip_by_split p s :
  exists suf, s = rstrip_by p s ++ suf /\ Forall (fun c => p c = true) suf.
Proof.
  unfold rstrip_by. destruct (lstrip_by_split p (rev s)) as (pre & E & F).
  exists (rev pre). split; [|now apply Forall_rev].
  rewrite <- rev_app_distr, <- E. now rewrite rev_involutive.
Qed.

Lemma strip_by_split p s :
  exists pre suf,
    s = pre ++ strip_by p s ++ suf
    /\ Forall (fun c => p c = true) pre /\ Forall (fun c => p c = true) suf.
Proof.
  destruct (lstrip_by_split p s) as (pre & E1 & F1).
  destruct (rstrip_by_split p (lstrip_by p s)) as (suf & E2 & F2).
  exists pre, suf. unfold strip_by. now rewrite <- E2.
Qed.

Lemma filter_none {A} (q : A -> bool) (l : list A) :
  Forall (fun c => q c = false) l -> filter q l = [].
Proof.
  induction 1 as [|c l Hc _ IH]; simpl; [reflexivity|]. now rewrite Hc.
Qed.

Section Stripped.
Variables (p q : char -> bool).
Hypothesis disjoint : forall c, p c = true -> q c = false.

Lemma filter_dropped (l : pystr) :
  Forall (fun c => p c = true) l -> filter q l = [].
Proof.
  intros F. apply filter_none. eapply Forall_impl; [|exact F]. exact disjoint.
Qed.

Lemma filter_lstrip_by (s : pystr) : filter q (lstrip_by p s) = filter q s.
Proof.
  destruct (lstrip_by_split p s) as (pre & E & F).
  rewrite E at 2. now rewrite filter_app, (filter_dropped _ F).
Qed.

Lemma filter_rstrip_by (s : pystr) : filter q (rstrip_by p s) = filter q s.
Proof.
  destruct (rstrip_by_split p s) as (suf & E & F).
  rewrite E at 2. now rewrite filter_app, (filter_dropped _ F), app_nil_r.
Qed.

Lemma filter_strip_by (s : pystr) : filter q (strip_by p s) = filter q s.
Proof. unfold strip_by. now rewrite filter_rstrip_by, filter_lstrip_by. Qed.

End Stripped.

Lemma lstrip_by_all p s : Forall (fun c => p c = true) s -> lstrip_by p s = [].
Proof.
  induction 1 as [|c t Hc _ IH]; simpl; [reflexivity|]. now rewrite Hc.
Qed.

Lemma strip_by_all p s : Forall (fun c => p c = true) s -> strip_by p s = [].
Proof. intros F. unfold strip_by. now rewrite (lstrip_by_all _ _ F). Qed.

Lemma strip_by_nil_inv p s :
  strip_by p s = [] -> Forall (fun c => p c = true) s.
Proof.
  intros E. destruct (strip_by_split p s) as (pre & suf & Es & F1 & F2).
  rewrite Es, E. apply Forall_app. now split.
Qed.

Lemma strip_by_tidy p s :
  clean p (strip_by p s) /\ clean p (rev (strip_by p s)).
Proof.
  split.
  - apply rstrip_by_keeps_clean, lstrip_by_clean.
  - unfold strip_by, rstrip_by. rewrite rev_involutive. apply lstrip_by_clean.
Qed.

Lemma strip_by_fixed p s : clean p s -> clean p (rev s) -> strip_by p s = s.
Proof.
  intros C1 C2. unfold strip_by. rewrite (lstrip_by_id _ _ C1).
  now apply rstrip_by_id.
Qed.

Lemma clean_weaken (p p' : char -> bool) s :
  (forall c, p' c = true -> p c = true) -> clean p s -> clean p' s.
Proof.
  intros H. destruct s as [|c t]; simpl; [auto|]. intros Hc.
  destruct (p' c) eqn:E; [|reflexivity]. apply H in E. congruence.
Qed.

Lemma clean_app p a b : a <> [] -> clean p a -> clean p (a ++ b).
Proof. destruct a; [contradiction | auto]. Qed.

Lemma join_cons sep x y rest :
  join sep (x :: y :: rest) = x ++ sep ++ join sep (y :: rest).
Proof. reflexivity. Qed.

Lemma join_not_nil sep x rest : x <> [] -> join sep (x :: rest) <> [].
Proof.
  intros Hx. destruct rest as [|y rest]; [exact Hx|]. rewrite join_cons.
  destruct x; [contradiction | discriminate].
Qed.

(** Joining pieces that neither start nor end with a [p] character gives
    such a string. *)
Lemma join_tidy p sep parts :
  Forall (fun x => x <> [] /\ clean p x /\ clean p (rev x)) parts ->
  clean p (join sep parts) /\ clean p (rev (join sep parts)).
Proof.
  induction 1 as [|x rest (Hx & C1 & C2) Hrest IH]; [now split|].
  destruct rest as [|y rest]; [now split|]. rewrite join_cons. split.
  - now apply clean_app.
  - rewrite !rev_app_distr, <- app_assoc. apply clean_app; [|apply IH].
    intros E. apply (f_equal (@rev char)) in E. rewrite rev_involutive in E.
    revert E. apply join_not_nil. inversion Hrest; tauto.
Qed.

Lemma filter_join q sep parts :
  filter q sep = [] ->
  filter q (join sep parts) = concat (map (filter q) parts).
Proof.
  intros Hs. induction parts as [|x rest IH]; [reflexivity|].
  destruct rest as [|y rest]; [simpl; now rewrite app_nil_r|].
  rewrite join_cons, !filter_app, Hs, IH. reflexivity.
Qed.

Lemma In_join c sep parts :
  In c (join sep parts) -> In c sep \/ exists x, In x parts /\ In c x.
Proof.
  induction parts as [|x rest IH]; [intros []|].
  destruct rest as [|y rest].
  - intros H. right. exists x. simpl; auto.
  - rewrite join_cons, !in_app_iff. intros [H|[H|H]].
    + right. exists x. simpl; auto.
    + now left.
    + destruct (IH H) as [H'|(z & Hz & Hc)]; [now left|].
      right. exists z. split; [now right | exact Hc].
Qed.

End TextFacts.

(* ================================================================== *)
(** ** More on the QR path *)

Module QrMore.

Import PyStr PyExc PyFloat Qr Direct.
Import PyStrFacts PyFloatFacts QrFacts TextFacts.
Local Open Scope float_scope.

(* ------------------------------------------------------------------ *)
(** *** Symbol collection *)

Lemma In_symbol_of (it : item) (p : pystr * corners) :
  In it (symbol_of p)
  <-> text it <> [] /\ p = (text it, Corners (cy it) (cx it) (size it)).
Proof.
  destruct p as [info [y x h|]]; unfold symbol_of, collect_step; simpl.
  - destruct info as [|c info]; simpl.
    + split; [intros [] | intros [Ht E]; inversion E; congruence].
    + split.
      * intros [<-|[]]. simpl. split; [discriminate | reflexivity].
      * intros [_ E]. left. destruct it; simpl in *. now inversion E.
  - split; [intros [] | intros [_ E]; discriminate].
Qed.

(** X1. An item is collected on a page exactly when the two lists have
    the same length and the item pairs a non-empty payload with the
    centroid and height of the corner array at the same position; without
    geometry nothing is collected. *)
Theorem collected_items_pair_by_position
    (decoded_info : list pystr) (points : list corners) (it : item) :
  (In it (collect decoded_info (Some points))
   <-> length decoded_info = length points
       /\ text it <> []
       /\ In (text it, Corners (cy it) (cx it) (size it))
             (combine decoded_info points))
  /\ collect decoded_info None = [].
Proof.
  split; [|reflexivity].
  destruct (Nat.eq_dec (length decoded_info) (length points)) as [E|N].
  - rewrite (collect_paired _ _ E), in_flat_map. split.
    + intros (p & Hp & Hit). apply In_symbol_of in Hit.
      destruct Hit as [Ht ->]. auto.
    + intros (_ & Ht & Hin). eexists. split; [exact Hin|].
      now apply In_symbol_of.
  - unfold collect. apply Nat.eqb_neq in N as N'. rewrite N'.
    split; [intros [] | tauto].
Qed.

(* ------------------------------------------------------------------ *)
(** *** Line clustering *)

Lemma float_eqb_leb x y :
  (x =? y) = true -> (x <=? y) = true /\ (y <=? x) = true.
Proof.
  rewrite FloatAxioms.eqb_spec, !leb_spec. unfold SFeqb, SFleb.
  rewrite (SFcompare_swap (Prim2SF x) (Prim2SF y)).
  destruct (SFcompare (Prim2SF x) (Prim2SF y)) as [[]|]; simpl;
    try discriminate. now split.
Qed.

Lemma lt_yx_le (a b : item) :
  lt_yx (key_yx a) (key_yx b) = true -> (cy a <=? cy b) = true.
Proof.
  unfold lt_yx, key_yx. cbn [fst snd].
  destruct (cy a =? cy b) eqn:E;
    [intros _; exact (proj1 (float_eqb_leb _ _ E))|].
  apply ltb_leb.
Qed.

Lemma not_lt_yx_le (a b : item) :
  is_nan (cy a) = false -> is_nan (cy b) = false ->
  lt_yx (key_yx b) (key_yx a) = false -> (cy a <=? cy b) = true.
Proof.
  intros Ha Hb. unfold lt_yx, key_yx. cbn [fst snd].
  destruct (cy b =? cy a) eqn:E;
    [intros _; exact (proj2 (float_eqb_leb _ _ E))|].
  now apply not_ltb_leb.
Qed.

(** The first sort leaves the symbols in non-decreasing order of y. *)
Lemma sort_yx_sorted (items : list item) :
  Forall (key_ok cy) items ->
  StronglySorted (key_le cy) (py_sort lt_yx key_yx items).
Proof.
  induction 1 as [|x l Hx Hl IH]; simpl; [constructor|].
  assert (Hs : Forall (key_ok cy) (py_sort lt_yx key_yx l)).
  { apply Forall_forall. intros z Hz. apply py_sort_In in Hz.
    rewrite Forall_forall in Hl. now apply Hl. }
  revert IH Hs. generalize (py_sort lt_yx key_yx l). intros s Hsorted Hok.
  induction Hsorted as [|y s Hs IH' Hy]; simpl.
  - repeat constructor.
  - inversion Hok as [|? ? Hyok Hsok]; subst.
    destruct (lt_yx (key_yx y) (key_yx x)) eqn:E.
    + constructor; [now apply IH'|].
      apply Forall_forall. intros z Hz.
      apply (Permutation_in _ (Permutation_sym (insert_perm _ _ x s))) in Hz.
      destruct Hz as [<-|Hz]; [now apply lt_yx_le|].
      rewrite Forall_forall in Hy. now apply Hy.
    + assert (Hxy : key_le cy x y) by now apply not_lt_yx_le.
      constructor; [now constructor|].
      constructor; [exact Hxy|].
      eapply Forall_impl; [|exact Hy].
      intros z Hz. eapply leb_trans; eassumption.
Qed.

(** The state of the pass after the symbols [seen]: the lines are the
    closed clusters sorted by x, and the clusters with the open one make
    up [seen]. *)
Lemma cluster_runs (thr : float) (seen : list item) :
  let st := fold_left (cluster_step thr) seen cluster_init in
  exists clusters,
    lines st = map sort_by_x clusters
    /\ concat clusters ++ current_line st = seen
    /\ Forall (fun c => c <> []) clusters
    /\ (current_y st = None -> current_line st = [])
    /\ (current_y st <> None -> current_line st <> []).
Proof.
  induction seen as [|x seen IH] using rev_ind; cbn zeta.
  - exists []. cbn. repeat split; auto.
  - rewrite cluster_fold_snoc.
    set (st := fold_left (cluster_step thr) seen cluster_init) in *.
    destruct IH as (clusters & Hl & Hc & Hne & Hnone & Hsome).
    unfold cluster_step. destruct (current_y st) as [c|] eqn:Ey.
    + destruct (abs (cy x - c) <=? thr); cbn [lines current_line current_y].
      * exists clusters. repeat split; auto; try discriminate.
        -- now rewrite app_assoc, Hc.
        -- intros _ E. now apply app_eq_nil in E as [_ E].
      * exists (clusters ++ [current_line st]). repeat split;
          try discriminate.
        -- now rewrite Hl, map_app.
        -- rewrite concat_app. cbn [concat]. rewrite app_nil_r.
           now rewrite Hc.
        -- apply Forall_app. split; [exact Hne|].
           constructor; [|constructor]. apply Hsome. discriminate.
    + cbn [lines current_line current_y]. exists clusters.
      repeat split; auto; try discriminate.
      now rewrite <- Hc, (Hnone eq_refl), app_nil_r.
Qed.

Lemma page_lines_runs (items : list item) :
  exists clusters,
    page_lines items = Ok (map sort_by_x clusters)
    /\ concat clusters = py_sort lt_yx key_yx items
    /\ Forall (fun c => c <> []) clusters.
Proof.
  unfold page_lines. destruct items as [|it items].
  - exists []. repeat split. constructor.
  - cbn [truthy negb].
    destruct (y_threshold_ok (it :: items)) as [thr ->]. cbn [bind].
    destruct (cluster_runs thr (py_sort lt_yx key_yx (it :: items)))
      as (clusters & Hl & Hc & Hne & _ & _).
    unfold cluster_finish.
    destruct (current_line _) as [|x cur] eqn:Ecur; cbn [truthy].
    + exists clusters. rewrite app_nil_r in Hc. now rewrite Hl.
    + exists (clusters ++ [x :: cur]). repeat split.
      * now rewrite Hl, map_app.
      * rewrite concat_app. cbn [concat]. now rewrite app_nil_r.
      * apply Forall_app. split; [exact Hne|].
        constructor; [discriminate | constructor].
Qed.

Lemma concat_map_perm {A} (f : list A -> list A) (cs : list (list A)) :
  (forall c, Permutation (f c) c) ->
  Permutation (concat (map f cs)) (concat cs).
Proof.
  intros Hf. induction cs as [|c cs IH]; simpl; [constructor|].
  now apply Permutation_app.
Qed.

Lemma sort_by_x_perm (l : line) : Permutation (sort_by_x l) l.
Proof. symmetry. apply py_sort_perm. Qed.

(** X2. The lines of a page are consecutive runs of the symbols taken
    in (y, x) order, each run sorted by x: clustering never raises, every
    symbol is in exactly one line, no line is empty, and there is no line
    exactly when there is no symbol. *)
Theorem lines_partition_the_symbols (items : list item) :
  exists (ls : list line) (clusters : list (list item)),
    page_lines items = Ok ls
    /\ ls = map sort_by_x clusters
    /\ concat clusters = py_sort lt_yx key_yx items
    /\ Permutation (concat ls) items
    /\ Forall (fun l => l <> []) ls
    /\ (ls = [] <-> items = []).
Proof.
  destruct (page_lines_runs items) as (clusters & Hp & Hc & Hne).
  exists (map sort_by_x clusters), clusters. repeat split; auto.
  - rewrite (concat_map_perm _ _ sort_by_x_perm), Hc.
    symmetry. apply py_sort_perm.
  - apply Forall_map. eapply Forall_impl; [|exact Hne].
    intros c Hcne E. apply Hcne, length_zero_iff_nil.
    unfold sort_by_x in E. now rewrite <- (py_sort_length PrimFloat.ltb cx), E.
  - intros E. apply map_eq_nil in E. subst clusters. cbn in Hc.
    apply length_zero_iff_nil.
    now rewrite <- (py_sort_length lt_yx key_yx), <- Hc.
  - intros ->. destruct clusters as [|c cs]; [reflexivity|].
    cbn in Hc. inversion Hne as [|? ? Hcne _]; subst.
    destruct c; [contradiction | discriminate].
Qed.

Lemma sorted_app_inv {A} (R : A -> A -> Prop) (l1 l2 : list A) :
  StronglySorted R (l1 ++ l2) ->
  StronglySorted R l2 /\ forall a b, In a l1 -> In b l2 -> R a b.
Proof.
  induction l1 as [|x l1 IH]; simpl; intros H.
  - split; [exact H | intros a b []].
  - apply StronglySorted_inv in H. destruct H as [H F].
    destruct (IH H) as [H2 H12]. split; [exact H2|].
    intros a b [<-|Ha] Hb; [|now apply H12].
    rewrite Forall_forall in F. apply F, in_app_iff. now right.
Qed.

Lemma sorted_concat_runs {A} (R : A -> A -> Prop) (cs : list (list A)) :
  StronglySorted R (concat cs) ->
  ForallOrdPairs (fun c c' => forall a b, In a c -> In b c' -> R a b) cs.
Proof.
  induction cs as [|c cs IH]; simpl; intros H; [constructor|].
  apply sorted_app_inv in H. destruct H as [H2 H12].
  constructor; [|now apply IH].
  apply Forall_forall. intros c' Hc' a b Ha Hb. apply H12; [exact Ha|].
  apply in_concat. now exists c'.
Qed.

Lemma FOP_map {A B} (f : A -> B) (R : B -> B -> Prop) (l : list A) :
  ForallOrdPairs (fun a b => R (f a) (f b)) l -> ForallOrdPairs R (map f l).
Proof.
  induction 1 as [|a l Ha _ IH]; simpl; constructor; [|exact IH].
  now apply Forall_map.
Qed.

(** X3. When every centroid is a pair of numbers, the lines of a page
    come from top to bottom: no symbol of a later line lies above a symbol
    of an earlier line. *)
Theorem lines_run_top_to_bottom (items : list item) (ls : list line) :
  Forall (fun it => is_nan (cy it) = false /\ is_nan (cx it) = false)
         items ->
  page_lines items = Ok ls ->
  ForallOrdPairs
    (fun l l' => forall a b, In a l -> In b l' -> (cy a <=? cy b) = true) ls.
Proof.
  intros Hn Hp. destruct (page_lines_runs items) as (clusters & Hp' & Hc & _).
  rewrite Hp in Hp'. injection Hp' as ->.
  assert (Hy : Forall (key_ok cy) items).
  { eapply Forall_impl; [|exact Hn]. now intros it [H _]. }
  apply FOP_map. pose proof (sort_yx_sorted items Hy) as Hs.
  rewrite <- Hc in Hs. apply sorted_concat_runs in Hs. clear Hp Hc.
  induction Hs as [|c cs Hf _ IH]; [constructor|].
  constructor; [|exact IH].
  eapply Forall_impl; [|exact Hf]. intros c' H a b Ha Hb.
  apply H; [apply (Permutation_in _ (sort_by_x_perm c) Ha)
           |apply (Permutation_in _ (sort_by_x_perm c') Hb)].
Qed.

(** Two rows of two symbols, detected in no particular order. *)
Lemma lines_run_top_to_bottom_witness :
  ForallOrdPairs
    (fun l l' => forall a b, In a l -> In b l' -> (cy a <=? cy b) = true)
    [ [Item 10 15 (str "a") 20; Item 11 45 (str "b") 20];
      [Item 40 15 (str "c") 20; Item 41 45 (str "d") 20] ].
Proof.
  apply (lines_run_top_to_bottom
           [ Item 41 45 (str "d") 20; Item 11 45 (str "b") 20;
             Item 40 15 (str "c") 20; Item 10 15 (str "a") 20 ]).
  - repeat constructor.
  - vm_compute. reflexivity.
Defined.

(* ------------------------------------------------------------------ *)
(** *** Paragraph reconstruction *)

Lemma stream_flat (lines_all_pages : list (list line)) :
  stream [[concat (concat lines_all_pages)]] = stream lines_all_pages.
Proof.
  unfold stream. cbn [map concat]. rewrite !app_nil_r.
  induction lines_all_pages as [|pl rest IH]; [reflexivity|].
  cbn [concat map]. rewrite concat_app, map_app, IH.
  now rewrite concat_map.
Qed.

(** X4. Where the lines and the pages break does not matter to the
    text: the paragraphs and the output are those of the same symbols on
    a single line, so a paragraph runs on across lines and pages. *)
Theorem line_and_page_breaks_are_invisible
    (lines_all_pages : list (list line)) :
  paragraphs_of lines_all_pages
  = paragraphs_of [[concat (concat lines_all_pages)]]
  /\ compose lines_all_pages = compose [[concat (concat lines_all_pages)]]
  /\ forall other,
       stream other = stream lines_all_pages ->
       compose other = compose lines_all_pages.
Proof.
  split; [|split].
  - now rewrite !paragraphs_of_stream, stream_flat.
  - apply compose_stream. now rewrite stream_flat.
  - intros other E. now apply compose_stream.
Qed.

Lemma nonspace_not_space c : isspace c = true -> nonspace c = false.
Proof. unfold nonspace. now intros ->. Qed.

Lemma nonspace_not_newline c :
  existsb (N.eqb c) newline = true -> nonspace c = false.
Proof.
  cbn. rewrite orb_false_r. intros E. apply N.eqb_eq in E. now subst c.
Qed.

(** The characters kept so far: those of the paragraphs and of the
    accumulator. *)
Lemma flush_chars (st : acc) :
  concat (map (filter nonspace) (flush st))
  = concat (map (filter nonspace) (fst st))
    ++ filter nonspace (concat (snd st)).
Proof.
  destruct st as [ps cur]. cbn [flush fst snd]. rewrite join_empty_sep.
  pose proof (filter_strip_by isspace nonspace nonspace_not_space
                              (concat cur)) as E.
  fold strip in E. destruct (strip (concat cur)) as [|c t] eqn:S; cbn [truthy].
  - now rewrite <- E, app_nil_r.
  - rewrite map_app, concat_app. cbn [map concat]. now rewrite app_nil_r, E.
Qed.

Lemma feed_chars (st : acc) (ch : pystr) :
  concat (map (filter nonspace) (fst (feed st ch)))
  ++ filter nonspace (concat (snd (feed st ch)))
  = (concat (map (filter nonspace) (fst st))
     ++ filter nonspace (concat (snd st)))
    ++ payload_chars ch.
Proof.
  unfold payload_chars. destruct (eqb ch plus) eqn:E.
  - apply eqb_eq in E. subst ch. destruct st as [ps cur].
    rewrite feed_plus. cbn [fst snd concat filter].
    now rewrite flush_chars, !app_nil_r.
  - apply eqb_neq in E. destruct st as [ps cur].
    rewrite (feed_other _ _ _ E). cbn [fst snd].
    rewrite concat_app, filter_app. cbn [concat].
    now rewrite app_nil_r, app_assoc.
Qed.

Lemma paragraph_chars (lines_all_pages : list (list line)) :
  concat (map (filter nonspace) (paragraphs_of lines_all_pages))
  = flat_map payload_chars (stream lines_all_pages).
Proof.
  rewrite paragraphs_of_stream, flush_chars.
  change (flat_map payload_chars (stream lines_all_pages))
    with ((concat (map (filter nonspace) (fst (@nil pystr, @nil pystr)))
           ++ filter nonspace (concat (snd (@nil pystr, @nil pystr))))
          ++ flat_map payload_chars (stream lines_all_pages)).
  generalize (@nil pystr, @nil pystr) as st.
  induction (stream lines_all_pages) as [|ch s IH]; intros st.
  - cbn [fold_left flat_map]. now rewrite app_nil_r.
  - cbn [fold_left flat_map]. now rewrite IH, feed_chars, <- !app_assoc.
Qed.

Lemma filter_compose (lines_all_pages : list (list line)) :
  filter nonspace (compose lines_all_pages)
  = concat (map (filter nonspace) (paragraphs_of lines_all_pages)).
Proof.
  unfold compose, strip_chars.
  rewrite (filter_strip_by _ nonspace nonspace_not_newline).
  now apply filter_join.
Qed.

(** X5. The characters of the output that are not white space are, in
    reading order, those of the payloads other than the delimiter:
    reconstruction loses no such character, adds none and reorders
    none. *)
Theorem output_keeps_the_payload_characters
    (lines_all_pages : list (list line)) :
  filter nonspace (compose lines_all_pages)
  = flat_map (fun ch => if eqb ch plus then [] else filter nonspace ch)
             (stream lines_all_pages).
Proof.
  rewrite filter_compose, paragraph_chars. reflexivity.
Qed.

Lemma paragraphs_tidy (lines_all_pages : list (list line)) :
  Forall (fun x => x <> [] /\ clean isspace x /\ clean isspace (rev x))
         (paragraphs_of lines_all_pages).
Proof.
  rewrite paragraphs_of_stream.
  eapply Forall_impl; [|apply paragraphs_emitted].
  intros p [(pre & chars & post & _ & _ & ->) Hne].
  unfold strip in *. rewrite strip_by_idempotent in Hne.
  split; [exact Hne | apply strip_by_tidy].
Qed.

Lemma compose_join (lines_all_pages : list (list line)) :
  compose lines_all_pages = join newline (paragraphs_of lines_all_pages).
Proof.
  destruct (join_tidy isspace newline _ (paragraphs_tidy lines_all_pages))
    as [C1 C2].
  unfold compose, strip_chars.
  apply strip_by_fixed; eapply clean_weaken; eauto;
    intros c Hc; apply nonspace_not_newline in Hc;
    unfold nonspace in Hc; now apply negb_false_iff in Hc.
Qed.

(** X6. The output neither starts nor ends with white space: it is the
    paragraphs joined by single newlines, the final [strip] of newlines
    removes nothing, and every paragraph is trimmed and not empty. *)
Theorem output_is_trimmed (lines_all_pages : list (list line)) :
  compose lines_all_pages = join newline (paragraphs_of lines_all_pages)
  /\ strip (compose lines_all_pages) = compose lines_all_pages
  /\ Forall (fun p => strip p = p /\ p <> [])
            (paragraphs_of lines_all_pages).
Proof.
  pose proof (paragraphs_tidy lines_all_pages) as T.
  destruct (join_tidy isspace newline _ T) as [C1 C2].
  split; [apply compose_join|split].
  - rewrite compose_join. now apply strip_by_fixed.
  - eapply Forall_impl; [|exact T]. intros p (Hne & Ca & Cb).
    split; [now apply strip_by_fixed | exact Hne].
Qed.

(* ------------------------------------------------------------------ *)
(** *** [decode_qr_from_pdf] *)

Lemma process_page_rendered (r : detect_result) :
  process_page (Rendered r)
  = page_lines (collect (fst (detect r)) (snd (detect r))).
Proof. cbn [process_page]. now destruct (detect r). Qed.

Lemma process_pages_raise (pages : list page) (acc0 : list (list line)) e :
  process_pages pages acc0 = Raise e ->
  e = RenderError /\ In RenderRaise pages.
Proof.
  revert acc0. induction pages as [|p rest IH]; intros acc0; cbn [process_pages].
  - discriminate.
  - destruct p as [|r].
    + cbn. intros [= <-]. auto.
    + rewrite process_page_rendered.
      destruct (page_lines_ok (collect (fst (detect r)) (snd (detect r))))
        as [ls ->].
      cbn [bind]. intros H. apply IH in H. destruct H as [-> H].
      split; [reflexivity | now right].
Qed.

(** X7. [decode_qr_from_pdf] raises in three cases only, looked at in
    this order: an import fails, the file cannot be opened, a page cannot
    be rendered.  The median of an empty list is never asked for. *)
Theorem decode_raises_exactly (f : pdf) :
  (forall e,
      decode_qr_from_pdf f = Raise e
      <-> (imports_ok f = false /\ e = RuntimeError)
          \/ (imports_ok f = true /\ doc f = None /\ e = OpenError)
          \/ (imports_ok f = true
              /\ (exists pages, doc f = Some pages /\ In RenderRaise pages)
              /\ e = RenderError))
  /\ decode_qr_from_pdf f <> Raise StatisticsError.
Proof.
  assert (G : forall e,
      decode_qr_from_pdf f = Raise e
      <-> (imports_ok f = false /\ e = RuntimeError)
          \/ (imports_ok f = true /\ doc f = None /\ e = OpenError)
          \/ (imports_ok f = true
              /\ (exists pages, doc f = Some pages /\ In RenderRaise pages)
              /\ e = RenderError)).
  { intros e. unfold decode_qr_from_pdf.
    destruct (imports_ok f); cbn [negb].
    - destruct (doc f) as [pages|].
      + destruct (process_pages pages []) as [lap|e'] eqn:E; cbn [bind].
        * split; [discriminate|].
          intros [[H _]|[(_ & H & _)|(_ & (ps & [= <-] & Hin) & _)]];
            try discriminate.
          apply in_split in Hin. destruct Hin as (b & a & ->).
          rewrite render_failure_raises in E. discriminate.
        * apply process_pages_raise in E. destruct E as [-> Hin].
          split.
          -- intros [= <-]. right. right. eauto.
          -- intros [[H _]|[(_ & H & _)|(_ & _ & ->)]];
               try discriminate; reflexivity.
      + split.
        * intros [= <-]. right. left. auto.
        * intros [[H _]|[(_ & _ & ->)|(_ & (ps & H & _) & _)]];
            try discriminate; reflexivity.
    - split.
      + intros [= <-]. left. auto.
      + intros [[_ ->]|[(H & _)|(H & _)]]; try discriminate; reflexivity. }
  split; [exact G|].
  intros H. apply G in H.
  destruct H as [[_ H]|[(_ & _ & H)|(_ & _ & H)]]; discriminate.
Qed.

(** X8. A document whose pages all render and carry no symbol (no page
    at all, failed or malformed detection, unmatched lists, empty
    payloads) decodes to the empty text, and [main] then writes an empty
    file and exits with status 0. *)
Theorem pages_without_symbols_give_empty_text (pages : list page) :
  Forall (fun p => exists r,
              p = Rendered r
              /\ collect (fst (detect r)) (snd (detect r)) = []) pages ->
  decode_qr_from_pdf (Pdf true (Some pages)) = Ok []
  /\ forall stem suffix ts,
       let w := World true [] (Pdf true (Some pages)) stem suffix ts in
       run w = ([WriteText (stamped_name w) []; Stdout (stamped_name w)],
                0%Z).
Proof.
  intros H.
  assert (E : decode_qr_from_pdf (Pdf true (Some pages)) = Ok []).
  { induction H as [|p rest (r & -> & Hr) _ IH]; [reflexivity|].
    rewrite <- IH. apply (empty_page_skipped (Rendered r) [] rest).
    now rewrite process_page_rendered, Hr. }
  split; [exact E|]. intros stem suffix ts. cbn zeta. rewrite run_unfold.
  cbn [in_exists negb direct_text truthy file]. now rewrite E.
Qed.

(** Four pages: the detector raises, reports nothing, reports lists of
    unequal length, reports an empty payload. *)
Lemma pages_without_symbols_give_empty_text_witness :
  decode_qr_from_pdf
    (Pdf true (Some [ Rendered DetectRaise;
                      Rendered (Tuple4 false None None);
                      Rendered (Tuple3 (Some [str "a"]) (Some []));
                      Rendered (Tuple3 (Some [[]])
                                       (Some [Corners 10 15 20])) ]))
  = Ok [].
Proof.
  apply pages_without_symbols_give_empty_text.
  repeat constructor; eexists; split; reflexivity.
Defined.

Lemma page_stream_perm (p : page) (ls : list line) :
  process_page p = Ok ls ->
  Permutation (concat (map (map text) ls)) (page_payloads p).
Proof.
  destruct p as [|r]; [discriminate|].
  rewrite process_page_rendered. cbn [page_payloads]. intros E.
  destruct (page_lines_runs (collect (fst (detect r)) (snd (detect r))))
    as (clusters & E' & Hc & _).
  rewrite E in E'. injection E' as ->.
  rewrite <- concat_map. apply Permutation_map.
  rewrite (concat_map_perm _ _ sort_by_x_perm), Hc.
  symmetry. apply py_sort_perm.
Qed.

Lemma process_pages_stream (pages : list page) (acc0 lap : list (list line)) :
  process_pages pages acc0 = Ok lap ->
  Permutation (stream lap) (stream acc0 ++ flat_map page_payloads pages).
Proof.
  revert acc0. induction pages as [|p rest IH]; intros acc0; cbn [process_pages].
  - intros [= <-]. cbn. now rewrite app_nil_r.
  - destruct (process_page p) as [ls|e] eqn:E; cbn [bind]; [|discriminate].
    intros H. apply IH in H. rewrite H, stream_app. cbn [flat_map].
    rewrite <- app_assoc. apply Permutation_app_head.
    apply Permutation_app_tail. unfold stream. cbn [map concat].
    rewrite app_nil_r. now apply page_stream_perm.
Qed.

(** X9. When decoding returns, the payloads it read are those collected
    from the detector's answers, each exactly once (only their order is
    the clusterer's), and the characters of the output that are not white
    space are the characters of the payloads other than the delimiter, up
    to that order. *)
Theorem decoding_conserves_the_symbols (pages : list page) :
  (forall lap,
      process_pages pages [] = Ok lap ->
      Permutation (stream lap) (flat_map page_payloads pages))
  /\ (forall out,
        decode_qr_from_pdf (Pdf true (Some pages)) = Ok out ->
        Permutation (filter nonspace out)
                    (flat_map payload_chars
                              (flat_map page_payloads pages))).
Proof.
  split.
  - intros lap H. now apply process_pages_stream in H.
  - unfold decode_qr_from_pdf. cbn [imports_ok negb doc].
    intros out. destruct (process_pages pages []) as [lap|e] eqn:E;
      cbn [bind]; [|discriminate].
    intros [= <-]. rewrite filter_compose, paragraph_chars.
    apply Permutation_flat_map. now apply process_pages_stream in E.
Qed.

(** Two symbols reported right to left, and a delimiter on a second
    page. *)
Lemma decoding_conserves_the_symbols_witness :
  Permutation (str "ab")
              (flat_map payload_chars [str "b"; str "a"; str "+"]).
Proof.
  apply (proj2 (decoding_conserves_the_symbols
    [ Rendered (Tuple3 (Some [str "b"; str "a"])
                       (Some [Corners 10 45 20; Corners 10 15 20]));
      Rendered (Tuple3 (Some [str "+"]) (Some [Corners 10 15 20])) ])
    (str "ab")).
  vm_compute. reflexivity.
Defined.

(* ------------------------------------------------------------------ *)
(** *** The output name *)



End QrMore.

(* ================================================================== *)
(** ** Direct extraction *)

Module DirectFacts.

Import PyStr PyExc PyFloat Qr Direct.
Import PyStrFacts QrFacts TextFacts QrMore.

(* ------------------------------------------------------------------ *)
(** *** Characters *)

Lemma content_not_space c : isspace c = true -> content c = false.
Proof. unfold content, nonspace. now intros ->. Qed.

Lemma content_nonspace c : content c = true -> nonspace c = true.
Proof. unfold content. now intros H%andb_prop. Qed.

Lemma content_not_plus c : content c = true -> c <> plus_char.
Proof.
  unfold content. intros H%andb_prop E. destruct H as [_ H].
  apply negb_true_iff, N.eqb_neq in H. contradiction.
Qed.

Lemma not_truthy {A} (l : list A) : truthy l = false -> l = [].
Proof. destruct l; [reflexivity | discriminate]. Qed.

Lemma filter_filter_sub {A} (p q : A -> bool) (l : list A) :
  (forall c, q c = true -> p c = true) ->
  filter q (filter p l) = filter q l.
Proof.
  intros H. induction l as [|c l IH]; simpl; [reflexivity|].
  destruct (p c) eqn:P; simpl; rewrite IH; [reflexivity|].
  destruct (q c) eqn:Q; [|reflexivity]. apply H in Q. congruence.
Qed.

Lemma lstrip_by_In p s c : In c (lstrip_by p s) -> In c s.
Proof.
  destruct (lstrip_by_split p s) as (pre & E & _). intros H.
  rewrite E, in_app_iff. now right.
Qed.

Lemma rstrip_by_In p s c : In c (rstrip_by p s) -> In c s.
Proof.
  destruct (rstrip_by_split p s) as (suf & E & _). intros H.
  rewrite E, in_app_iff. now left.
Qed.

(** Strings without white space are left alone by the strips. *)
Lemma spaceless_clean (x : pystr) :
  Forall (fun c => nonspace c = true) x ->
  clean isspace x /\ clean isspace (rev x).
Proof.
  intros F.
  assert (G : forall y, Forall (fun c => nonspace c = true) y ->
                        clean isspace y).
  { intros [|c y] Hy; [exact I|]. inversion Hy as [|? ? Hc _]; subst.
    unfold nonspace in Hc. now apply negb_true_iff in Hc. }
  split; [now apply G | apply G, Forall_rev, F].
Qed.

Lemma strip_spaceless (x : pystr) :
  Forall (fun c => nonspace c = true) x ->
  strip x = x /\ lstrip_by isspace x = x /\ rstrip_by isspace x = x.
Proof.
  intros F. destruct (spaceless_clean x F) as [C1 C2]. repeat split.
  - now apply strip_by_fixed.
  - now apply lstrip_by_id.
  - now apply rstrip_by_id.
Qed.

Lemma remove_spaces_spaceless (s : pystr) :
  Forall (fun c => nonspace c = true) (remove_spaces s).
Proof. apply Forall_forall. intros c H. now apply filter_In in H. Qed.

(* ------------------------------------------------------------------ *)
(** *** [replace] and the text of a page *)

Lemma strip_prefix_app (old s rest : pystr) :
  strip_prefix old s = Some rest -> s = old ++ rest.
Proof.
  revert s. induction old as [|x old IH]; intros s; simpl.
  - now intros [= ->].
  - destruct s as [|y s]; [discriminate|].
    destruct (N.eqb x y) eqn:E; [|discriminate].
    apply N.eqb_eq in E. subst y. intros H. now rewrite (IH _ H).
Qed.

Lemma filter_replace_from (q : char -> bool) (old new : pystr) :
  filter q old = [] -> filter q new = [] ->
  forall fuel s, filter q (replace_from fuel old new s) = filter q s.
Proof.
  intros Ho Hn. induction fuel as [|fuel IH]; intros s; [reflexivity|].
  cbn [replace_from]. destruct s as [|c t]; [reflexivity|].
  destruct (strip_prefix old (c :: t)) as [rest|] eqn:E.
  - apply strip_prefix_app in E. rewrite E, !filter_app, Ho, Hn, IH.
    reflexivity.
  - cbn [filter]. now rewrite IH.
Qed.

(** Lines 26-27 come to deleting the white space of the page's text. *)
Lemma normalize_spec (t : pystr) : normalize t = remove_spaces t.
Proof.
  unfold normalize. cbv zeta.
  assert (E : remove_spaces (replace [cr] [lf] (replace [cr; lf] [lf] t))
              = remove_spaces t).
  { unfold remove_spaces, replace.
    now rewrite !filter_replace_from by reflexivity. }
  rewrite E. apply strip_spaceless, remove_spaces_spaceless.
Qed.

Lemma read_pages_texts (texts : list pystr) (text_pages : list pystr) :
  read_pages (map Some texts) text_pages
  = Some (text_pages ++ filter truthy (map remove_spaces texts)).
Proof.
  revert text_pages. induction texts as [|t texts IH]; intros tp.
  - cbn. now rewrite app_nil_r.
  - cbn [map read_pages filter]. cbv zeta. rewrite normalize_spec.
    destruct (truthy (remove_spaces t)); rewrite IH; [|reflexivity].
    now rewrite <- app_assoc.
Qed.

Lemma read_pages_raise (pages : list (option pystr)) (text_pages : list pystr) :
  In None pages -> read_pages pages text_pages = None.
Proof.
  revert text_pages. induction pages as [|[t|] pages IH]; intros tp H.
  - destruct H.
  - destruct H as [H|H]; [discriminate|]. cbn [read_pages]. now apply IH.
  - reflexivity.
Qed.

Lemma extract_readable (f : text_pdf) (texts : list pystr) :
  readable f texts ->
  extract_text_from_pdf f
  = assemble (filter truthy (map remove_spaces texts)).
Proof.
  intros [Hf Hd]. unfold extract_text_from_pdf.
  now rewrite Hf, Hd, read_pages_texts.
Qed.

(* ------------------------------------------------------------------ *)
(** *** Splitting at the delimiter *)

Lemma split_at_In (d : char) (s q : pystr) (c : char) :
  In q (split_at d s) -> In c q -> In c s /\ c <> d.
Proof.
  revert q. induction s as [|x t IH]; intros q; cbn [split_at].
  - intros [<-|[]] [].
  - destruct (N.eqb x d) eqn:E.
    + intros [<-|Hq] Hc; [destruct Hc|].
      destruct (IH _ Hq Hc). split; [now right | assumption].
    + apply N.eqb_neq in E.
      destruct (split_at d t) as [|p ps].
      * intros [<-|[]] [<-|[]]. split; [now left | assumption].
      * intros [<-|Hq] Hc.
        -- destruct Hc as [<-|Hc]; [split; [now left | assumption]|].
           destruct (IH p (or_introl eq_refl) Hc). split; [now right|assumption].
        -- destruct (IH q (or_intror Hq) Hc). split; [now right|assumption].
Qed.

Lemma split_at_filter (q : char -> bool) (d : char) (s : pystr) :
  q d = false ->
  concat (map (filter q) (split_at d s)) = filter q s.
Proof.
  intros Hd. induction s as [|x t IH]; [reflexivity|]. cbn [split_at].
  destruct (N.eqb x d) eqn:E.
  - apply N.eqb_eq in E. subst x. cbn [map concat filter app].
    now rewrite Hd, IH.
  - destruct (split_at d t) as [|p ps]; cbn [map concat filter] in *.
    + rewrite <- IH. destruct (q x); reflexivity.
    + rewrite <- IH. destruct (q x); reflexivity.
Qed.

Lemma trim_pieces_In (first : bool) (pieces : list pystr) (p : pystr) :
  In p (trim_pieces first pieces) ->
  exists q, In q pieces /\ forall c, In c p -> In c q.
Proof.
  revert first. induction pieces as [|x rest IH]; intros first; [intros []|].
  cbn [trim_pieces]. destruct rest as [|y rest].
  - intros [<-|[]]. exists x. split; [now left|].
    destruct first; [auto | apply lstrip_by_In].
  - intros [<-|H].
    + exists x. split; [now left|].
      destruct first; [apply rstrip_by_In | apply strip_by_In].
    + destruct (IH false H) as (q & Hq & Hc). exists q. split; [now right|auto].
Qed.

Lemma trim_pieces_filter (q : char -> bool) (first : bool)
    (pieces : list pystr) :
  (forall c, isspace c = true -> q c = false) ->
  map (filter q) (trim_pieces first pieces) = map (filter q) pieces.
Proof.
  intros H. revert first.
  induction pieces as [|x rest IH]; intros first; [reflexivity|].
  cbn [trim_pieces]. destruct rest as [|y rest].
  - cbn [map]. destruct first; [reflexivity|].
    now rewrite (filter_lstrip_by isspace q H).
  - cbn [map] in *. rewrite (IH false). f_equal.
    destruct first;
      [apply (filter_rstrip_by isspace q H) | apply (filter_strip_by isspace q H)].
Qed.

Lemma trim_pieces_spaceless (first : bool) (pieces : list pystr) :
  Forall (Forall (fun c => nonspace c = true)) pieces ->
  trim_pieces first pieces = pieces.
Proof.
  intros F. revert first.
  induction F as [|x rest Hx _ IH]; intros first; [reflexivity|].
  destruct (strip_spaceless x Hx) as (E1 & E2 & E3).
  cbn [trim_pieces]. destruct rest as [|y rest].
  - destruct first; [reflexivity | now rewrite E2].
  - rewrite (IH false). destruct first; now rewrite ?E1, ?E3.
Qed.

(** The parts that [assemble] joins. *)
Lemma parts_filter (q : char -> bool) (pieces : list pystr) :
  (forall c, isspace c = true -> q c = false) ->
  concat (map (filter q)
              (map strip (filter (fun p => truthy p && truthy (strip p))
                                 pieces)))
  = concat (map (filter q) pieces).
Proof.
  intros H. induction pieces as [|x rest IH]; [reflexivity|].
  pose proof (filter_strip_by isspace q H x) as E. fold strip in E.
  cbn [filter]. destruct (truthy x && truthy (strip x)) eqn:K.
  - cbn [map concat]. now rewrite IH, E.
  - cbn [map concat]. rewrite IH, <- E.
    apply andb_false_iff in K. destruct K as [K|K].
    + apply not_truthy in K. now subst x.
    + apply not_truthy in K. now rewrite K.
Qed.

Lemma content_of_space : filter content (str " ") = [].
Proof. reflexivity. Qed.

Lemma assemble_content (text_pages : list pystr) :
  filter content (assemble text_pages)
  = concat (map (filter content) text_pages).
Proof.
  unfold assemble. cbv zeta.
  set (all_text := strip (join (str " ") text_pages)).
  assert (E : filter content all_text
              = concat (map (filter content) text_pages)).
  { unfold all_text, strip.
    rewrite (filter_strip_by isspace content content_not_space).
    now apply filter_join. }
  rewrite <- E. destruct all_text as [|c t] eqn:A; [reflexivity|].
  cbn [truthy negb]. rewrite filter_join by reflexivity.
  rewrite (parts_filter content _ content_not_space).
  unfold split_delimiter.
  rewrite (trim_pieces_filter content _ _ content_not_space).
  apply split_at_filter. reflexivity.
Qed.

(* ------------------------------------------------------------------ *)
(** *** What [extract_text_from_pdf] returns *)

Lemma assemble_In (text_pages : list pystr) (c : char) :
  In c (assemble text_pages) ->
  In c newline
  \/ (In c (join (str " ") text_pages) /\ c <> plus_char).
Proof.
  unfold assemble. cbv zeta.
  destruct (truthy (strip (join (str " ") text_pages))); cbn [negb];
    [|intros []].
  intros H. apply In_join in H. destruct H as [H|(x & Hx & Hc)]; [now left|].
  right. apply in_map_iff in Hx. destruct Hx as (q & <- & Hq).
  apply filter_In in Hq. destruct Hq as [Hq _].
  apply trim_pieces_In in Hq. destruct Hq as (q0 & Hq0 & Hsub).
  apply strip_by_In, Hsub in Hc.
  destruct (split_at_In _ _ _ _ Hq0 Hc) as [Hin Hne].
  split; [now apply strip_by_In in Hin | exact Hne].
Qed.

Lemma assemble_tidy (text_pages : list pystr) :
  clean isspace (assemble text_pages)
  /\ clean isspace (rev (assemble text_pages)).
Proof.
  unfold assemble. cbv zeta.
  destruct (truthy (strip (join (str " ") text_pages))); cbn [negb];
    [|now split].
  apply join_tidy. apply Forall_forall. intros x Hx.
  apply in_map_iff in Hx. destruct Hx as (q & <- & Hq).
  apply filter_In in Hq. destruct Hq as [_ Hq].
  apply andb_prop in Hq. destruct Hq as [_ Hq]. apply truthy_true in Hq.
  split; [exact Hq | apply strip_by_tidy].
Qed.

Lemma read_pages_spaceless (pages : list (option pystr))
    (acc0 text_pages : list pystr) :
  read_pages pages acc0 = Some text_pages ->
  Forall (Forall (fun c => nonspace c = true)) acc0 ->
  Forall (Forall (fun c => nonspace c = true)) text_pages.
Proof.
  revert acc0. induction pages as [|[t|] pages IH]; intros acc0; cbn [read_pages].
  - now intros [= <-].
  - cbv zeta. rewrite normalize_spec. intros H F. apply (IH _ H).
    destruct (truthy (remove_spaces t)); [|exact F].
    apply Forall_app. split; [exact F|].
    constructor; [apply remove_spaces_spaceless | constructor].
  - discriminate.
Qed.

(** The result is [assemble] of texts without white space, or empty. *)
Lemma extract_cases (f : text_pdf) :
  extract_text_from_pdf f = []
  \/ exists text_pages,
       extract_text_from_pdf f = assemble text_pages
       /\ Forall (Forall (fun c => nonspace c = true)) text_pages.
Proof.
  unfold extract_text_from_pdf.
  destruct (fitz_ok f); cbn [negb]; [|now left].
  destruct (text_doc f) as [pages|]; [|now left].
  destruct (read_pages pages []) as [tp|] eqn:E; [|now left].
  right. exists tp. split; [reflexivity|].
  apply (read_pages_spaceless _ _ _ E). constructor.
Qed.

(** X11. Direct extraction never raises and never returns part of a
    text: when the import fails, the file does not open or any page does
    not give its text, the result is the empty string, whatever the other
    pages hold, and [main] goes by the QR path alone. *)
Theorem unreadable_text_gives_nothing (f : text_pdf) :
  fitz_ok f = false
  \/ text_doc f = None
  \/ (exists pages, text_doc f = Some pages /\ In None pages) ->
  extract_text_from_pdf f = []
  /\ forall e q stem suffix ts,
       run (world_for (Input e f q stem suffix ts))
       = run (World e [] q stem suffix ts).
Proof.
  intros H.
  assert (E : extract_text_from_pdf f = []).
  { unfold extract_text_from_pdf.
    destruct H as [->|[H|(pages & Hd & Hin)]]; [reflexivity| |].
    - rewrite H. now destruct (fitz_ok f).
    - rewrite Hd, (read_pages_raise _ _ Hin). now destruct (fitz_ok f). }
  split; [exact E|]. intros e q stem suffix ts.
  unfold world_for. cbn [input_exists text_view qr_view Direct.stem
                         Direct.suffix stamp].
  now rewrite E.
Qed.

(** The second page gives its text, the third raises. *)
Lemma unreadable_text_gives_nothing_witness :
  extract_text_from_pdf
    (TextPdf true (Some [Some (str "HELLO+"); Some (str "WORLD"); None]))
  = [].
Proof.
  apply unreadable_text_gives_nothing. right. right.
  eexists. split; [reflexivity|]. cbn. auto.
Defined.

(** X12. The text that direct extraction returns never contains the
    delimiter character. *)
Theorem direct_text_has_no_delimiter (f : text_pdf) :
  Forall (fun c => c <> plus_char) (extract_text_from_pdf f).
Proof.
  apply Forall_forall. intros c Hc.
  destruct (extract_cases f) as [E|(tp & E & _)]; rewrite E in Hc.
  - destruct Hc.
  - apply assemble_In in Hc. destruct Hc as [[<-|[]]|[_ H]].
    + discriminate.
    + exact H.
Qed.

(** X13. The text that direct extraction returns neither starts nor ends
    with white space, and its only white space is the space that joins two
    pages and the newline that joins two paragraphs: the line breaks and
    blanks of the pages' text are gone. *)
Theorem direct_text_is_tidy (f : text_pdf) :
  strip (extract_text_from_pdf f) = extract_text_from_pdf f
  /\ Forall (fun c => isspace c = true -> c = 32%N \/ c = 10%N)
            (extract_text_from_pdf f).
Proof.
  destruct (extract_cases f) as [E|(tp & E & Htp)]; rewrite E.
  - split; [reflexivity | constructor].
  - split.
    + destruct (assemble_tidy tp). now apply strip_by_fixed.
    + apply Forall_forall. intros c Hc Hs.
      apply assemble_In in Hc. destruct Hc as [[<-|[]]|[Hc _]]; [now right|].
      apply In_join in Hc. destruct Hc as [[<-|[]]|(x & Hx & Hc)]; [now left|].
      rewrite Forall_forall in Htp. specialize (Htp x Hx).
      rewrite Forall_forall in Htp. specialize (Htp c Hc).
      unfold nonspace in Htp. rewrite Hs in Htp. discriminate.
Qed.

Lemma readable_content (f : text_pdf) (texts : list pystr) :
  readable f texts ->
  filter content (extract_text_from_pdf f)
  = concat (map (filter content) texts).
Proof.
  intros R. rewrite (extract_readable _ _ R), assemble_content. clear R.
  induction texts as [|t texts IH]; [reflexivity|].
  cbn [map filter concat].
  assert (E : filter content (remove_spaces t) = filter content t).
  { apply filter_filter_sub. exact content_nonspace. }
  destruct (remove_spaces t) as [|c r] eqn:S; cbn [truthy].
  - now rewrite IH, <- E.
  - cbn [map concat]. now rewrite IH, E.
Qed.

Lemma readable_empty (f : text_pdf) (texts : list pystr) :
  readable f texts ->
  (extract_text_from_pdf f = []
   <-> Forall (fun t => filter content t = []) texts).
Proof.
  intros R. pose proof (readable_content f texts R) as C. split.
  - intros E. rewrite E in C. cbn in C. symmetry in C.
    apply concat_nil_Forall in C. now apply Forall_map in C.
  - intros F.
    assert (Z : filter content (extract_text_from_pdf f) = []).
    { rewrite C. apply concat_nil_Forall. now apply Forall_map. }
    destruct (extract_cases f) as [E|(tp & E & _)]; [exact E|].
    rewrite E in *. destruct (assemble tp) as [|c out] eqn:A; [reflexivity|].
    exfalso.
    assert (Hplus : c <> plus_char).
    { destruct (assemble_In tp c) as [[<-|[]]|[_ H]];
        [rewrite A; now left | discriminate | exact H]. }
    destruct (assemble_tidy tp) as [Hclean _]. rewrite A in Hclean.
    cbn [clean] in Hclean. cbn [filter] in Z.
    unfold content at 1, nonspace in Z. rewrite Hclean in Z.
    apply N.eqb_neq in Hplus. rewrite Hplus in Z. discriminate.
Qed.

(** X14. When the text layer can be read, the characters of the result
    that are neither white space nor the delimiter are those of the
    pages' texts, in order: none is lost, added or moved.  So the result
    is empty, and [main] falls back on the QR path, exactly when the text
    layer holds nothing but white space and delimiters. *)
Theorem direct_text_keeps_the_content (f : text_pdf) (texts : list pystr) :
  readable f texts ->
  filter content (extract_text_from_pdf f)
  = concat (map (filter content) texts)
  /\ (extract_text_from_pdf f = []
      <-> Forall (fun t => filter content t = []) texts).
Proof.
  intros R. split.
  - now apply readable_content.
  - now apply readable_empty.
Qed.

(** Two pages, the second of delimiters and blanks only. *)
Lemma direct_text_keeps_the_content_witness :
  filter content
    (extract_text_from_pdf
       (TextPdf true (Some [Some (str "HE LLO + WOR"); Some (str " + +")])))
  = str "HELLOWOR".
Proof.
  exact (proj1 (direct_text_keeps_the_content
                  (TextPdf true
                     (Some [Some (str "HE LLO + WOR"); Some (str " + +")]))
                  [str "HE LLO + WOR"; str " + +"]
                  (conj eq_refl eq_refl))).
Defined.

(** X15. Lines 26-27 come to deleting all the white space of a page's
    text, so the replacement of carriage returns changes nothing and two
    text layers that differ only in white space, line breaks included,
    give the same result. *)
Theorem white_space_in_page_text_is_ignored
    (f f' : text_pdf) (texts texts' : list pystr) :
  readable f texts ->
  readable f' texts' ->
  map remove_spaces texts = map remove_spaces texts' ->
  extract_text_from_pdf f = extract_text_from_pdf f'
  /\ Forall (fun t => normalize t = remove_spaces t) texts.
Proof.
  intros R R' E. split.
  - now rewrite (extract_readable _ _ R), (extract_readable _ _ R'), E.
  - apply Forall_forall. intros t _. apply normalize_spec.
Qed.

(** A page with a line break and blanks, and the same page without. *)
Lemma white_space_in_page_text_is_ignored_witness :
  extract_text_from_pdf
    (TextPdf true (Some [Some (str "HEL" ++ [cr; lf] ++ str "LO + WORLD")]))
  = extract_text_from_pdf (TextPdf true (Some [Some (str "HELLO+WORLD")])).
Proof.
  exact (proj1 (white_space_in_page_text_is_ignored
                  (TextPdf true _) (TextPdf true _)
                  [str "HEL" ++ [cr; lf] ++ str "LO + WORLD"]
                  [str "HELLO+WORLD"]
                  (conj eq_refl eq_refl) (conj eq_refl eq_refl) eq_refl)).
Defined.

(* ------------------------------------------------------------------ *)
(** *** The two paths on the same characters *)

Lemma split_at_cons (d : char) (s : pystr) :
  exists p ps, split_at d s = p :: ps.
Proof.
  destruct s as [|c t]; cbn [split_at]; [now eexists; eexists|].
  destruct (N.eqb c d); [now eexists; eexists|].
  destruct (split_at d t); now eexists; eexists.
Qed.

Lemma split_at_app (d : char) (u s : pystr) :
  Forall (fun c => c <> d) u ->
  split_at d (u ++ s)
  = match split_at d s with
    | p :: ps => (u ++ p) :: ps
    | [] => [u]
    end.
Proof.
  destruct (split_at_cons d s) as (p & ps & E). rewrite E.
  induction 1 as [|x u Hx _ IH]; cbn [app]; [exact E|].
  cbn [split_at]. apply N.eqb_neq in Hx. now rewrite Hx, IH.
Qed.

Lemma concat_singles (u : pystr) : concat (map (fun c => [c]) u) = u.
Proof. induction u as [|c u IH]; [reflexivity|]. cbn. now rewrite IH. Qed.

Lemma remove_spaces_id (s : pystr) :
  Forall (fun c => nonspace c = true) s -> remove_spaces s = s.
Proof.
  intros F. apply forallb_filter_id, forallb_forall.
  now apply Forall_forall.
Qed.

Lemma flush_singles (ps : list pystr) (u : pystr) :
  Forall (fun c => nonspace c = true) u ->
  flush (ps, map (fun c => [c]) u) = ps ++ filter truthy [u].
Proof.
  intros Hu. cbn [flush]. rewrite join_empty_sep, concat_singles.
  destruct (strip_spaceless u Hu) as (-> & _ & _).
  cbn [filter]. destruct (truthy u); [reflexivity | now rewrite app_nil_r].
Qed.

(** The feed loop on single characters cuts at the delimiters. *)
Lemma feed_singles (s : pystr) (ps : list pystr) (u : pystr) :
  Forall (fun c => nonspace c = true) s ->
  Forall (fun c => nonspace c = true) u ->
  Forall (fun c => c <> plus_char) u ->
  flush (fold_left feed (map (fun c => [c]) s) (ps, map (fun c => [c]) u))
  = ps ++ filter truthy (split_at plus_char (u ++ s)).
Proof.
  intros Hs. revert ps u. induction Hs as [|c t Hc _ IH]; intros ps u Hu Hp.
  - cbn [map fold_left]. rewrite flush_singles by exact Hu.
    rewrite (split_at_app _ _ _ Hp). cbn [split_at]. now rewrite app_nil_r.
  - cbn [map fold_left]. rewrite (split_at_app _ _ _ Hp). cbn [split_at].
    destruct (N.eqb c plus_char) eqn:E.
    + apply N.eqb_eq in E. subst c. change [plus_char] with plus.
      rewrite feed_plus, flush_singles by exact Hu.
      change (@nil pystr) with (map (fun c : char => [c]) []) at 2.
      rewrite IH by constructor. cbn [app filter].
      rewrite app_nil_r, <- app_assoc. now destruct (truthy u).
    + apply N.eqb_neq in E.
      assert (Hne : [c] <> plus) by (intros [= H]; contradiction).
      rewrite (feed_other _ _ _ Hne).
      change (map (fun c0 : char => [c0]) u ++ [[c]])
        with (map (fun c0 : char => [c0]) u ++ map (fun c0 : char => [c0]) [c]).
      rewrite <- map_app, IH.
      * rewrite <- app_assoc. cbn [app].
        rewrite (split_at_app _ u (c :: t) Hp). cbn [split_at].
        apply N.eqb_neq in E. now rewrite E.
      * apply Forall_app. split; [exact Hu | now repeat constructor].
      * apply Forall_app. split; [exact Hp | now repeat constructor].
Qed.

Lemma split_at_spaceless (d : char) (s : pystr) :
  Forall (fun c => nonspace c = true) s ->
  Forall (Forall (fun c => nonspace c = true)) (split_at d s).
Proof.
  intros F. apply Forall_forall. intros q Hq. apply Forall_forall.
  intros c Hc. destruct (split_at_In _ _ _ _ Hq Hc) as [Hin _].
  rewrite Forall_forall in F. now apply F.
Qed.

Lemma parts_spaceless (pieces : list pystr) :
  Forall (Forall (fun c => nonspace c = true)) pieces ->
  map strip (filter (fun p => truthy p && truthy (strip p)) pieces)
  = filter truthy pieces.
Proof.
  induction 1 as [|x rest Hx _ IH]; [reflexivity|].
  destruct (strip_spaceless x Hx) as (E & _ & _). cbn [filter].
  rewrite E, andb_diag. destruct (truthy x); cbn [map]; now rewrite IH, ?E.
Qed.

(** X16. On one page of single characters none of which is white space,
    the two paths agree: the text extracted from the page's text layer
    is the text decoded from its symbols read in the same order. *)
Theorem both_paths_agree_on_single_characters (s : pystr) (l : line) :
  Forall (fun c => nonspace c = true) s ->
  map text l = map (fun c => [c]) s ->
  extract_text_from_pdf (TextPdf true (Some [Some s])) = compose [[l]].
Proof.
  intros Hs Hl.
  rewrite compose_join, paragraphs_of_stream. unfold stream.
  cbn [map concat]. rewrite !app_nil_r, Hl.
  change (@nil pystr) with (map (fun c : char => [c]) []) at 2.
  rewrite feed_singles by (constructor || exact Hs). cbn [app].
  unfold extract_text_from_pdf. cbn [fitz_ok negb text_doc read_pages].
  cbv zeta. rewrite normalize_spec, (remove_spaces_id _ Hs).
  destruct s as [|c t]; [reflexivity|]. cbn [truthy app].
  unfold assemble. cbv zeta. cbn [join].
  destruct (strip_spaceless _ Hs) as (-> & _ & _). cbn [truthy negb].
  unfold split_delimiter.
  rewrite trim_pieces_spaceless by now apply split_at_spaceless.
  now rewrite parts_spaceless by now apply split_at_spaceless.
Qed.

(** The page HELLO+WORLD. *)
Lemma both_paths_agree_on_single_characters_witness :
  extract_text_from_pdf (TextPdf true (Some [Some (str "HELLO+WORLD")]))
  = compose [[row (letters "HELLO+WORLD")]].
Proof.
  apply both_paths_agree_on_single_characters.
  - repeat constructor.
  - reflexivity.
Defined.

(* ------------------------------------------------------------------ *)
(** *** [main] with both paths *)

(** X17. For an input that exists and whose text layer can be read:
    when the layer holds a character that is neither white space nor the
    delimiter, [main] writes the directly extracted text and exits with
    status 0 whatever the QR path would do; otherwise the run is the one
    the QR path decides. *)
Theorem text_layer_decides_the_path (i : input) (texts : list pystr) :
  input_exists i = true ->
  readable (text_view i) texts ->
  (Exists (fun t => filter content t <> []) texts ->
   run (world_for i)
   = ([WriteText (stamped_name (world_for i))
                 (extract_text_from_pdf (text_view i));
       Stdout (stamped_name (world_for i))], 0%Z))
  /\ (Forall (fun t => filter content t = []) texts ->
      run (world_for i)
      = run (World true [] (qr_view i) (stem i) (suffix i) (stamp i))).
Proof.
  intros He R. pose proof (readable_empty _ _ R) as [E1 E2]. split.
  - intros X.
    assert (Hne : extract_text_from_pdf (text_view i) <> []).
    { intros E. apply E1 in E. apply Exists_exists in X.
      destruct X as (t & Ht & Hc). rewrite Forall_forall in E.
      now apply Hc, E. }
    rewrite run_unfold. unfold world_for, stamped_name.
    cbn [in_exists direct_text out_stem out_suffix timestamp].
    rewrite He. cbn [negb].
    destruct (extract_text_from_pdf (text_view i)); [contradiction|].
    reflexivity.
  - intros F. unfold world_for. now rewrite (E2 F), He.
Qed.

(** A file with the text HI, whose QR path cannot even import its
    libraries. *)
Lemma text_layer_decides_the_path_witness :
  run (world_for (Input true (TextPdf true (Some [Some (str "HI")]))
                        (Pdf false None)
                        (str "result") (str ".txt") (str "250101_120000")))
  = ([WriteText (str "result_250101_120000.txt") (str "HI");
      Stdout (str "result_250101_120000.txt")], 0%Z).
Proof.
  refine (proj1 (text_layer_decides_the_path
                   (Input true (TextPdf true (Some [Some (str "HI")]))
                          (Pdf false None)
                          (str "result") (str ".txt") (str "250101_120000"))
                   [str "HI"] eq_refl (conj eq_refl eq_refl)) _).
  constructor. discriminate.
Defined.

End DirectFacts.
